(** * The key-prefix migrator of [migrate.py]

    [migrate.py] walks every JSON document of its directory and renames the
    mapping keys that live under the old package namespace ["bloqade."] so
    that they live under ["bloqade.analog."].  This file embeds the script:
    the Python string methods it calls, the recursive function [walk], and
    the read / transform / write loop over the files, and proves the
    properties its specification states about them. *)

From Stdlib Require Import String Ascii List ZArith NArith Bool Lia.
From stdpp Require base strings gmap.
Import ListNotations.

Local Open Scope string_scope.
Local Open Scope list_scope.

Infix "+:+" := String.append (at level 60, right associativity) : string_scope.

(** ** Python string methods used by the script *)

Module PyStr.

(** [s.startswith(pre)]. *)
Fixpoint startswith (s pre : string) {struct pre} : bool :=
  match pre with
  | EmptyString => true
  | String p pre' =>
      match s with
      | EmptyString => false
      | String c s' => if Ascii.eqb c p then startswith s' pre' else false
      end
  end.

(** [sub in s]. *)
Fixpoint contains (s sub : string) : bool :=
  if startswith s sub then true
  else match s with
       | EmptyString => false
       | String _ s' => contains s' sub
       end.

(** The scan of [s.replace(old, new)] for a non-empty [old]: occurrences of
    [old] are found from left to right and do not overlap.  [skip] counts the
    characters of the occurrence just replaced that are still to be passed
    over. *)
Fixpoint replace_scan (old new : string) (skip : nat) (s : string) : string :=
  match s with
  | EmptyString => EmptyString
  | String c s' =>
      match skip with
      | S n => replace_scan old new n s'
      | O =>
          if startswith s old
          then new +:+ replace_scan old new (String.length old - 1) s'
          else String c (replace_scan old new 0 s')
      end
  end.

(** With an empty [old], Python puts [new] before every character and at the
    end. *)
Fixpoint replace_empty (new s : string) : string :=
  match s with
  | EmptyString => new
  | String c s' => new +:+ String c (replace_empty new s')
  end.

(** [s.replace(old, new)]: every occurrence, no [count] argument. *)
Definition replace (s old new : string) : string :=
  match old with
  | EmptyString => replace_empty new s
  | String _ _ => replace_scan old new 0 s
  end.

(** [s[n:]]. *)
Fixpoint drop (n : nat) (s : string) : string :=
  match n, s with
  | O, _ => s
  | S _, EmptyString => EmptyString
  | S n', String _ s' => drop n' s'
  end.

End PyStr.

(** ** JSON documents as [json.load] returns them *)

(** The leaves: [None], [True] / [False], [int], [float] (kept as the bit
    pattern of the double; [walk] never looks inside) and [str]. *)
Inductive scalar : Type :=
  | SNone
  | SBool (b : bool)
  | SInt (n : Z)
  | SFloat (bits : N)
  | SStr (s : string).

(** A [dict] is held as its items in iteration (insertion) order. *)
#[warnings="-register-all"]
Inductive json : Type :=
  | JScalar (s : scalar)
  | JList (items : list json)
  | JDict (items : list (string * json)).

(** ** Python [dict] operations on the item list *)

Module PyDict.
Section Ops.
Context {V : Type}.

(** [d[key] = value]: an existing key keeps its position and takes the new
    value, a fresh key goes to the end. *)
Fixpoint setitem (d : list (string * V)) (key : string) (value : V)
  : list (string * V) :=
  match d with
  | [] => [(key, value)]
  | (k, v) :: rest =>
      if String.eqb k key then (k, value) :: rest
      else (k, v) :: setitem rest key value
  end.

(** [d.get(key)]. *)
Fixpoint get (d : list (string * V)) (key : string) : option V :=
  match d with
  | [] => None
  | (k, v) :: rest => if String.eqb k key then Some v else get rest key
  end.

(** [list(d.keys())]. *)
Definition keys (d : list (string * V)) : list string := map fst d.

End Ops.
End PyDict.

(** ** [walk] *)

(** The two literals of the script. *)
Abbreviation old_prefix := ("bloqade.") (only parsing).
Abbreviation new_prefix := ("bloqade.analog.") (only parsing).

(** The key under which the loop body of [walk] stores an item: the
    if / elif / else chain on [key]. *)
Definition new_key (key : string) : string :=
  if PyStr.startswith key "bloqade.analog." then key
  else if PyStr.startswith key "bloqade."
       then PyStr.replace key "bloqade." "bloqade.analog."
       else key.

Fixpoint walk (data : json) : json :=
  match data with
  | JDict items =>
      JDict (fold_left
               (fun new_dict item =>
                  match item with
                  | (key, value) =>
                      PyDict.setitem new_dict (new_key key) (walk value)
                  end)
               items [])
  | JList items => JList (map walk items)
  | JScalar s => JScalar s
  end.

(** One turn of the [for key, value in data.items()] loop. *)
Definition walk_item (new_dict : list (string * json)) (item : string * json)
  : list (string * json) :=
  match item with
  | (key, value) => PyDict.setitem new_dict (new_key key) (walk value)
  end.

(** The whole loop, from the empty [new_dict]. *)
Definition walk_items (items : list (string * json)) : list (string * json) :=
  fold_left walk_item items [].


(** What an item becomes when nothing else is stored under its new key. *)
Definition renamed_item (item : string * json) : string * json :=
  match item with
  | (key, value) => (new_key key, walk value)
  end.

(** The new keys of the items, in iteration order. *)
Definition new_keys (items : list (string * json)) : list string :=
  map (fun item => new_key (fst item)) items.

(** [data.get(key)] on a document that is a mapping. *)
Definition getitem (data : json) (key : string) : option json :=
  match data with
  | JDict items => PyDict.get items key
  | _ => None
  end.

(** [len(data)] on a mapping or a sequence. *)
Definition len (data : json) : option nat :=
  match data with
  | JDict items => Some (length items)
  | JList items => Some (length items)
  | JScalar _ => None
  end.

(** The scalars of a document, from left to right. *)
Fixpoint leaves (data : json) : list scalar :=
  match data with
  | JScalar s => [s]
  | JList items => flat_map leaves items
  | JDict items =>
      flat_map (fun item => match item with (_, value) => leaves value end)
               items
  end.

(** ** Shape of a document *)

(** A document with the key names of its mappings erased: what is left is
    the nesting, the length and order of every sequence, the number of items
    of every mapping and the scalar at every leaf. *)
#[warnings="-register-all"]
Inductive shape : Type :=
  | ShScalar (s : scalar)
  | ShList (items : list shape)
  | ShDict (values : list shape).

Fixpoint shape_of (data : json) : shape :=
  match data with
  | JScalar s => ShScalar s
  | JList items => ShList (map shape_of items)
  | JDict items =>
      ShDict (map (fun item => match item with (_, value) => shape_of value end)
                  items)
  end.

(** The transform as the specification words it: the same tree, each
    mapping key replaced by its new name, nothing else touched. *)
Fixpoint rename_keys (data : json) : json :=
  match data with
  | JScalar s => JScalar s
  | JList items => JList (map rename_keys items)
  | JDict items =>
      JDict (map (fun item =>
                    match item with
                    | (key, value) => (new_key key, rename_keys value)
                    end)
                 items)
  end.

(** No string occurs twice. *)
Fixpoint distinct (l : list string) : bool :=
  match l with
  | [] => true
  | x :: rest => negb (existsb (String.eqb x) rest) && distinct rest
  end.

(** No mapping of the document, at any depth, holds two keys that [walk]
    stores under the same new key. *)
Fixpoint collision_free (data : json) : bool :=
  match data with
  | JScalar _ => true
  | JList items => forallb collision_free items
  | JDict items =>
      distinct (map (fun item => new_key (fst item)) items)
      && forallb (fun item => match item with (_, value) => collision_free value end)
                 items
  end.

(** ** [walk] on arbitrary Python values *)

(** What the interpreter can raise in this script. *)
Inductive exn : Type :=
  | AttributeError
  | JSONDecodeError
  | FileNotFoundError
  | RecursionError.

Inductive result (A : Type) : Type :=
  | Ok (a : A)
  | Raise (e : exn).
Arguments Ok {A} a.
Arguments Raise {A} e.

Definition bind {A B : Type} (r : result A) (k : A -> result B) : result B :=
  match r with
  | Ok a => k a
  | Raise e => Raise e
  end.

Notation "'let*' x ':=' r 'in' k" := (bind r (fun x => k))
  (at level 10, x name, r at level 100, k at level 200).

(** A Python value built from scalars, lists and dicts.  Unlike a decoded
    JSON document, a [dict] may be keyed by any hashable scalar. *)
#[warnings="-register-all"]
Inductive pyvalue : Type :=
  | PScalar (s : scalar)
  | PList (items : list pyvalue)
  | PDict (items : list (scalar * pyvalue)).

(** [walk] with the interpreter's checks written out.

    - [key.startswith] exists on [str] only, and asking it of any other key
      raises [AttributeError] before the value is visited.
    - [walk] calls itself once per nesting level and has no guard on the
      depth: every call needs a frame of the interpreter's stack, and a call
      made when none is left raises [RecursionError].  [frames] is the
      number of frames the interpreter still allows.  The list comprehension
      of the sequence branch runs in [listcomp] frames of its own: one up to
      Python 3.11, none from Python 3.12, where comprehensions are
      inlined. *)
Fixpoint walk_py (listcomp frames : nat) (data : pyvalue) {struct data}
  : result pyvalue :=
  match frames with
  | O => Raise RecursionError
  | S frames' =>
      match data with
      | PDict items =>
          (fix loop (items : list (scalar * pyvalue))
                   (new_dict : list (string * pyvalue)) : result pyvalue :=
             match items with
             | [] => Ok (PDict (map (fun kv => (SStr (fst kv), snd kv)) new_dict))
             | (SStr key, value) :: rest =>
                 let* w := walk_py listcomp frames' value in
                 loop rest (PyDict.setitem new_dict (new_key key) w)
             | (_, _) :: _ => Raise AttributeError
             end) items []
      | PList items =>
          if Nat.ltb frames' listcomp then Raise RecursionError
          else
            let* ws := (fix each (items : list pyvalue) : result (list pyvalue) :=
                     match items with
                     | [] => Ok []
                     | item :: rest =>
                         let* w := walk_py listcomp (frames' - listcomp) item in
                         let* ws := each rest in
                         Ok (w :: ws)
                     end) items in
            Ok (PList ws)
      | PScalar s => Ok (PScalar s)
      end
  end.

(** The two inner loops of [walk_py] under names of their own; [frames] is
    what is left for the calls they make. *)
Section WalkPyLoops.
Variables listcomp frames : nat.

Fixpoint walk_py_loop (items : list (scalar * pyvalue))
                      (new_dict : list (string * pyvalue)) : result pyvalue :=
  match items with
  | [] => Ok (PDict (map (fun kv => (SStr (fst kv), snd kv)) new_dict))
  | (SStr key, value) :: rest =>
      let* w := walk_py listcomp frames value in
      walk_py_loop rest (PyDict.setitem new_dict (new_key key) w)
  | (_, _) :: _ => Raise AttributeError
  end.

Fixpoint walk_py_each (items : list pyvalue) : result (list pyvalue) :=
  match items with
  | [] => Ok []
  | item :: rest =>
      let* w := walk_py listcomp frames item in
      let* ws := walk_py_each rest in
      Ok (w :: ws)
  end.
End WalkPyLoops.

(** The frames a call of [walk] needs when it visits the whole value: one
    for itself, those of the comprehension on a sequence, and those of the
    deepest call it makes. *)
Fixpoint frames_needed (listcomp : nat) (data : pyvalue) : nat :=
  match data with
  | PScalar _ => 1
  | PList items => S (listcomp + list_max (map (frames_needed listcomp) items))
  | PDict items =>
      S (list_max (map (fun item =>
                          match item with
                          | (_, value) => frames_needed listcomp value
                          end)
                       items))
  end.

(** A decoded JSON document seen as a Python value: every key is a [str]. *)
Fixpoint of_json (data : json) : pyvalue :=
  match data with
  | JScalar s => PScalar s
  | JList items => PList (map of_json items)
  | JDict items =>
      PDict (map (fun item =>
                    match item with
                    | (key, value) => (SStr key, of_json value)
                    end)
                 items)
  end.

(** An item of a decoded mapping, with its value seen as a Python value. *)
Definition of_item (item : string * json) : string * pyvalue :=
  (fst item, of_json (snd item)).

(** ** The loop over the files *)

Module Files.
Import stdpp.base stdpp.strings stdpp.gmap.

(** The directory is a finite map from the path of a file to its content;
    [files] is the list of paths [glob.glob] returned. *)

Section Loop.
(** The [json] module of the standard library: [json.load] on the content
    of a file ([None] when it raises [JSONDecodeError]) and the text
    [json.dump] writes. *)
Variable json_load : string -> option json.
Variable json_dump : json -> string.

(** The body of [for file in files]: the file is opened for writing only
    after [json.load] and [walk] have returned. *)
Definition migrate_file (file : string) (fs : gmap string string)
  : gmap string string * result unit :=
  match fs !! file with
  | None => (fs, Raise FileNotFoundError)
  | Some content =>
      match json_load content with
      | None => (fs, Raise JSONDecodeError)
      | Some data =>
          let new_data := walk data in
          (<[file := json_dump new_data]> fs, Ok tt)
      end
  end.

(** [for file in files]: the first exception ends the run. *)
Fixpoint main (files : list string) (fs : gmap string string)
  : gmap string string * result unit :=
  match files with
  | [] => (fs, Ok tt)
  | file :: rest =>
      match migrate_file file fs with
      | (fs', Ok _) => main rest fs'
      | (fs', Raise e) => (fs', Raise e)
      end
  end.
End Loop.

(** A [json.load] and a [json.dump] that know a single document, the empty
    object, to run the loop on examples. *)
Definition load_empty_object (content : string) : option json :=
  if String.eqb content "{}" then Some (JDict []) else None.

Definition dump_empty_object (data : json) : string := "{}".

End Files.

(** ** Induction on documents *)

Section JsonInd.
Variable P : json -> Prop.
Hypothesis Hscalar : forall s, P (JScalar s).
Hypothesis Hlist : forall items, Forall P items -> P (JList items).
Hypothesis Hdict :
  forall items, Forall (fun item => P (snd item)) items -> P (JDict items).

Fixpoint json_nested_ind (data : json) : P data :=
  match data with
  | JScalar s => Hscalar s
  | JList items =>
      Hlist items
        ((fix each (l : list json) : Forall P l :=
            match l with
            | [] => @List.Forall_nil _ _
            | x :: rest =>
                @List.Forall_cons _ _ x rest (json_nested_ind x) (each rest)
            end) items)
  | JDict items =>
      Hdict items
        ((fix each (l : list (string * json))
            : Forall (fun item => P (snd item)) l :=
            match l with
            | [] => @List.Forall_nil _ _
            | (k, v) :: rest =>
                @List.Forall_cons _ _ (k, v) rest (json_nested_ind v)
                  (each rest)
            end) items)
  end.
End JsonInd.

(** ** Documents before and after the migration *)

(** Every mapping of the document, at any depth, has pairwise different
    keys, as every Python [dict] has. *)
Fixpoint unique_keys (data : json) : bool :=
  match data with
  | JScalar _ => true
  | JList items => forallb unique_keys items
  | JDict items =>
      distinct (map fst items)
      && forallb (fun item => match item with (_, value) => unique_keys value end)
                 items
  end.

(** The key is not left in the old namespace: it is under the new prefix or
    not under the old one at all. *)
Definition key_migrated (key : string) : bool :=
  PyStr.startswith key new_prefix || negb (PyStr.startswith key old_prefix).

(** No key of the document, at any depth, is left in the old namespace. *)
Fixpoint migrated (data : json) : bool :=
  match data with
  | JScalar _ => true
  | JList items => forallb migrated items
  | JDict items =>
      forallb (fun item =>
                 match item with
                 | (key, value) => key_migrated key && migrated value
                 end)
              items
  end.

(** No key of the document, at any depth, is under the new prefix yet. *)
Fixpoint unmigrated (data : json) : bool :=
  match data with
  | JScalar _ => true
  | JList items => forallb unmigrated items
  | JDict items =>
      forallb (fun item =>
                 match item with
                 | (key, value) =>
                     negb (PyStr.startswith key new_prefix) && unmigrated value
                 end)
              items
  end.

(** The value of the last item, in iteration order, whose new key is
    [key]. *)
Fixpoint last_stored (items : list (string * json)) (key : string)
  : option json :=
  match items with
  | [] => None
  | (k, v) :: rest =>
      match last_stored rest key with
      | Some v' => Some v'
      | None => if String.eqb (new_key k) key then Some v else None
      end
  end.

(** Every mapping of the Python value, at any depth, is keyed by [str]. *)
Fixpoint str_keys (data : pyvalue) : bool :=
  match data with
  | PScalar _ => true
  | PList items => forallb str_keys items
  | PDict items =>
      forallb (fun item =>
                 match item with
                 | (SStr _, value) => str_keys value
                 | (_, _) => false
                 end)
              items
  end.

(** On a decoded document a call of [walk] returns when it has the frames
    it needs and raises [RecursionError] when it has not. *)
Definition returns_or_overflows (listcomp : nat) (data : json) : Prop :=
  forall frames,
    walk_py listcomp frames (of_json data)
    = if Nat.leb (frames_needed listcomp (of_json data)) frames
      then Ok (of_json (walk data))
      else Raise RecursionError.

(** What [walk_py] does on a value when the frames suffice, told from its
    keys alone. *)
Definition outcome (listcomp frames : nat) (data : pyvalue) : Prop :=
  match walk_py listcomp frames data with
  | Ok r => str_keys data = true /\ str_keys r = true
  | Raise e => str_keys data = false /\ e = AttributeError
  end.

(** A sequence inside a sequence inside a sequence, [depth] times, around
    [None]: the text of [depth] opening brackets, [null] and [depth] closing
    brackets. *)
Definition nested_list (depth : nat) : json :=
  Nat.iter depth (fun data => JList [data]) (JScalar SNone).

(** ** States of the directory *)

Module FilesState.
Import stdpp.base stdpp.strings stdpp.gmap.

Section State.
Variable json_load : string -> option json.
Variable json_dump : json -> string.

(** Every listed file exists and parses. *)
Definition all_parse (files : list string) (fs : gmap string string) : Prop :=
  forall file, In file files ->
    exists content data, fs !! file = Some content /\ json_load content = Some data.

(** Every listed file holds a text that [json.load] reads and whose
    transformed document is dumped as the same text. *)
Definition all_stable (files : list string) (fs : gmap string string) : Prop :=
  forall file, In file files ->
    exists content data,
      fs !! file = Some content /\ json_load content = Some data /\
      json_dump (walk data) = content.
End State.

(** A [json.load] and a [json.dump] that know two texts, to run the loop on
    examples: ["old"] is the text of a document keyed under the old prefix,
    ["new"] the text of the same document keyed under the new one. *)
Definition sample_old : json := JDict [("bloqade.task", JScalar (SInt 1))].
Definition sample_new : json := JDict [("bloqade.analog.task", JScalar (SInt 1))].

Definition load_sample (content : string) : option json :=
  if String.eqb content "old" then Some sample_old
  else if String.eqb content "new" then Some sample_new
  else None.

Definition dump_sample (data : json) : string :=
  match data with
  | JDict ((key, _) :: _) =>
      if PyStr.startswith key new_prefix then "new" else "old"
  | _ => "{}"
  end.

End FilesState.

(** ** Induction on Python values *)

Section PyvalueInd.
Variable P : pyvalue -> Prop.
Hypothesis Hscalar : forall s, P (PScalar s).
Hypothesis Hlist : forall items, Forall P items -> P (PList items).
Hypothesis Hdict :
  forall items, Forall (fun item => P (snd item)) items -> P (PDict items).

Fixpoint pyvalue_nested_ind (data : pyvalue) : P data :=
  match data with
  | PScalar s => Hscalar s
  | PList items =>
      Hlist items
        ((fix each (l : list pyvalue) : Forall P l :=
            match l with
            | [] => @List.Forall_nil _ _
            | x :: rest =>
                @List.Forall_cons _ _ x rest (pyvalue_nested_ind x) (each rest)
            end) items)
  | PDict items =>
      Hdict items
        ((fix each (l : list (scalar * pyvalue))
            : Forall (fun item => P (snd item)) l :=
            match l with
            | [] => @List.Forall_nil _ _
            | (k, v) :: rest =>
                @List.Forall_cons _ _ (k, v) rest (pyvalue_nested_ind v)
                  (each rest)
            end) items)
  end.
End PyvalueInd.

(** ** [get_z2_probabilities] of [example-3-time-sweep.py] *)

Module Z2.

(** What the body of the loop can raise. *)
Inductive error : Type :=
  | KeyError (key : string)
  | ZeroDivisionError.

Section Probabilities.
(** The floats are left abstract: [truediv n total] stands for the value of
    [n / total] on two [int]s with [total] not zero (shot counts are far
    below the size at which the quotient of two [int]s overflows). *)
Context {float : Type}.
Variable truediv : Z -> Z -> float.

(** [sum(list(count.values()))]. *)
Definition total (count : list (string * Z)) : Z :=
  fold_left Z.add (map snd count) 0%Z.

(** [count["01010101010"] / sum(list(count.values()))]: the subscript is
    evaluated first, then the sum, then the division. *)
Definition z2_probability (count : list (string * Z)) : error + float :=
  match PyDict.get count "01010101010" with
  | None => inl (KeyError "01010101010")
  | Some n =>
      if Z.eqb (total count) 0 then inl ZeroDivisionError
      else inr (truediv n (total count))
  end.

(** The [for count in report.counts] loop, [z2_probabilities] being the list
    built so far. *)
Fixpoint z2_loop (counts : list (list (string * Z))) (z2_probabilities : list float)
  : error + list float :=
  match counts with
  | [] => inr z2_probabilities
  | count :: rest =>
      match z2_probability count with
      | inl e => inl e
      | inr probability => z2_loop rest (z2_probabilities ++ [probability])
      end
  end.

(** [counts] stands for [report.counts]: one mapping from bitstring to
    number of shots per task. *)
Definition get_z2_probabilities (counts : list (list (string * Z)))
  : error + list float :=
  z2_loop counts [].

End Probabilities.
End Z2.

(** * Properties *)

(** ** The string methods *)

Module PyStrFacts.
Import PyStr.

Lemma append_cons (c : ascii) (s t : string) :
  String c s +:+ t = String c (s +:+ t).
Proof. reflexivity. Qed.

Lemma startswith_app (pre s : string) : startswith (pre +:+ s) pre = true.
Proof.
  induction pre as [|p pre IH]; [reflexivity|].
  rewrite append_cons. simpl. now rewrite Ascii.eqb_refl.
Qed.

Lemma startswith_app_l (s p q : string) :
  startswith s (p +:+ q) = true -> startswith s p = true.
Proof.
  revert s; induction p as [|c p IH]; intros s H; [reflexivity|].
  rewrite append_cons in H. simpl in *.
  destruct s as [|a s]; [discriminate|].
  destruct (Ascii.eqb a c); [now apply IH | discriminate].
Qed.

Lemma startswith_split (s pre : string) :
  startswith s pre = true -> s = pre +:+ drop (String.length pre) s.
Proof.
  revert s; induction pre as [|p pre IH]; intros s H.
  - now destruct s.
  - simpl in H. destruct s as [|a s]; [discriminate|].
    destruct (Ascii.eqb_spec a p) as [->|]; [|discriminate].
    rewrite append_cons. simpl. f_equal. now apply IH.
Qed.

Lemma replace_scan_skip (old new : string) (n : nat) (s : string) :
  replace_scan old new n s = replace_scan old new 0 (drop n s).
Proof.
  revert s; induction n as [|n IH]; intros s; [now destruct s|].
  destruct s as [|c s]; [reflexivity|]. simpl. apply IH.
Qed.

(** At an occurrence of [old], [replace] writes [new] and goes on behind the
    occurrence. *)
Lemma replace_match (s old new : string) :
  old <> EmptyString ->
  startswith s old = true ->
  replace s old new = new +:+ replace (drop (String.length old) s) old new.
Proof.
  intros Hne H. destruct old as [|o old]; [congruence|].
  destruct s as [|c s]; [discriminate|].
  unfold replace. cbn [replace_scan]. rewrite H.
  rewrite replace_scan_skip. cbn [String.length drop].
  now replace (S (String.length old) - 1) with (String.length old) by lia.
Qed.

(** Where no occurrence of [old] starts, [replace] copies the character. *)
Lemma replace_copy (c : ascii) (s old new : string) :
  old <> EmptyString ->
  startswith (String c s) old = false ->
  replace (String c s) old new = String c (replace s old new).
Proof.
  intros Hne H. destruct old as [|o old]; [congruence|].
  unfold replace. cbn [replace_scan]. now rewrite H.
Qed.

End PyStrFacts.

(** ** The new key of an item *)

Lemma new_prefix_old_prefix (key : string) :
  PyStr.startswith key new_prefix = true ->
  PyStr.startswith key old_prefix = true.
Proof. apply (PyStrFacts.startswith_app_l key "bloqade." "analog."). Qed.

(** First branch: a key under the new prefix is stored as it is. *)
Lemma new_key_new_prefix (key : string) :
  PyStr.startswith key new_prefix = true -> new_key key = key.
Proof. intros H. unfold new_key. now rewrite H. Qed.

(** Last branch: a key under neither prefix is stored as it is. *)
Lemma new_key_other (key : string) :
  PyStr.startswith key old_prefix = false -> new_key key = key.
Proof.
  intros H. unfold new_key.
  destruct (PyStr.startswith key "bloqade.analog.") eqn:E; [reflexivity|].
  now rewrite H.
Qed.

(** Middle branch: the leading ["bloqade."] becomes ["bloqade.analog."], and
    [replace] then goes on through the rest of the key. *)
Lemma new_key_old_prefix (key : string) :
  PyStr.startswith key new_prefix = false ->
  PyStr.startswith key old_prefix = true ->
  new_key key
  = new_prefix +:+ PyStr.replace (PyStr.drop 8 key) old_prefix new_prefix.
Proof.
  intros Hn Ho. unfold new_key. rewrite Hn, Ho.
  now apply (PyStrFacts.replace_match key old_prefix new_prefix).
Qed.

(** Whatever the branch, the stored key is the key itself or lies under the
    new prefix. *)
Lemma new_key_cases (key : string) :
  new_key key = key \/ PyStr.startswith (new_key key) new_prefix = true.
Proof.
  destruct (PyStr.startswith key new_prefix) eqn:Hn.
  - left. now apply new_key_new_prefix.
  - destruct (PyStr.startswith key old_prefix) eqn:Ho.
    + right. rewrite new_key_old_prefix by assumption.
      apply PyStrFacts.startswith_app.
    + left. now apply new_key_other.
Qed.

Lemma new_key_idempotent (key : string) : new_key (new_key key) = new_key key.
Proof.
  destruct (new_key_cases key) as [E | H]; [now rewrite !E|].
  now apply new_key_new_prefix.
Qed.

(** ** The [dict] operations *)

Module PyDictFacts.
Import PyDict.
Section Facts.
Context {V : Type}.
Implicit Types (d : list (string * V)) (k : string) (v : V).

Lemma setitem_fresh d k v :
  ~ In k (keys d) -> setitem d k v = d ++ [(k, v)].
Proof.
  induction d as [|[k0 v0] d IH]; simpl; intros H; [reflexivity|].
  destruct (String.eqb_spec k0 k) as [->|_]; [tauto|].
  f_equal. apply IH. tauto.
Qed.

Lemma keys_setitem_in d k v :
  In k (keys d) -> keys (setitem d k v) = keys d.
Proof.
  induction d as [|[k0 v0] d IH]; simpl; intros H; [tauto|].
  destruct (String.eqb_spec k0 k) as [->|Hne]; [reflexivity|].
  simpl. f_equal. apply IH. destruct H; [contradiction | assumption].
Qed.

Lemma length_keys d : length (keys d) = length d.
Proof. apply List.length_map. Qed.

Lemma In_keys_setitem d k v k' :
  In k' (keys (setitem d k v)) <-> k' = k \/ In k' (keys d).
Proof.
  induction d as [|[k0 v0] d IH]; simpl.
  - intuition congruence.
  - destruct (String.eqb_spec k0 k) as [->|Hne]; simpl.
    + intuition congruence.
    + rewrite IH. tauto.
Qed.

Lemma In_setitem d k v k' v' :
  In (k', v') (setitem d k v) -> (k' = k /\ v' = v) \/ In (k', v') d.
Proof.
  induction d as [|[k0 v0] d IH]; simpl.
  - intros [E|[]]. injection E as <- <-. auto.
  - destruct (String.eqb_spec k0 k) as [->|Hne]; simpl.
    + intros [E|H]; [injection E as <- <-; auto | tauto].
    + intros [E|H]; [tauto|]. destruct (IH H); tauto.
Qed.

Lemma NoDup_keys_setitem d k v :
  NoDup (keys d) -> NoDup (keys (setitem d k v)).
Proof.
  induction d as [|[k0 v0] d IH]; simpl; intros H.
  - constructor; [intros [] | constructor].
  - destruct (String.eqb_spec k0 k) as [->|Hne]; simpl; [assumption|].
    inversion H as [|? ? Hnotin Hd]; subst.
    constructor; [|now apply IH].
    rewrite In_keys_setitem. intros [E|Hin]; [congruence | contradiction].
Qed.

Lemma get_setitem_eq d k v : get (setitem d k v) k = Some v.
Proof.
  induction d as [|[k0 v0] d IH]; simpl.
  - now rewrite String.eqb_refl.
  - destruct (String.eqb_spec k0 k) as [->|Hne]; simpl.
    + now rewrite String.eqb_refl.
    + destruct (String.eqb_spec k0 k); [contradiction | exact IH].
Qed.

Lemma get_setitem_ne d k v k' :
  k <> k' -> get (setitem d k v) k' = get d k'.
Proof.
  intros Hne. induction d as [|[k0 v0] d IH]; simpl.
  - destruct (String.eqb_spec k k'); [contradiction | reflexivity].
  - destruct (String.eqb_spec k0 k) as [->|Hne0]; simpl.
    + destruct (String.eqb_spec k k'); [contradiction | reflexivity].
    + now rewrite IH.
Qed.

Lemma get_In d k v :
  NoDup (keys d) -> In (k, v) d -> get d k = Some v.
Proof.
  induction d as [|[k0 v0] d IH]; simpl; intros Hnd Hin; [tauto|].
  inversion Hnd as [|? ? Hnotin Hd]; subst.
  destruct Hin as [E|Hin].
  - inversion E; subst. now rewrite String.eqb_refl.
  - destruct (String.eqb_spec k0 k) as [->|Hne]; [|now apply IH].
    exfalso. apply Hnotin. now apply (in_map fst) in Hin.
Qed.

End Facts.
End PyDictFacts.

(** ** The loop of [walk] over the items of a mapping *)

Lemma walk_JDict (items : list (string * json)) :
  walk (JDict items) = JDict (walk_items items).
Proof. reflexivity. Qed.

Module WalkItems.
Import PyDict PyDictFacts.

Lemma new_keys_app (l1 l2 : list (string * json)) :
  new_keys (l1 ++ l2) = new_keys l1 ++ new_keys l2.
Proof. apply map_app. Qed.

(** When the new keys are fresh and pairwise different, every turn of the
    loop appends. *)
Lemma fold_fresh (l acc : list (string * json)) :
  NoDup (keys acc ++ new_keys l) ->
  fold_left walk_item l acc = acc ++ map renamed_item l.
Proof.
  revert acc; induction l as [|[k v] l IH]; intros acc H; simpl.
  - now rewrite app_nil_r.
  - assert (Hfresh : ~ In (new_key k) (keys acc)).
    { apply NoDup_remove_2 in H. intros Hin. apply H.
      apply in_or_app. now left. }
    rewrite (setitem_fresh acc _ _ Hfresh).
    rewrite IH.
    + now rewrite <- app_assoc.
    + unfold keys. rewrite map_app, <- app_assoc. exact H.
Qed.

Lemma fold_NoDup (l acc : list (string * json)) :
  NoDup (keys acc) -> NoDup (keys (fold_left walk_item l acc)).
Proof.
  revert acc; induction l as [|[k v] l IH]; intros acc H; simpl; [exact H|].
  apply IH. now apply NoDup_keys_setitem.
Qed.

(** Every item of the result was in [new_dict] before the loop or is the
    renamed form of an item of the input. *)
Lemma fold_In (l acc : list (string * json)) (k' : string) (v' : json) :
  In (k', v') (fold_left walk_item l acc) ->
  In (k', v') acc \/ exists k v, In (k, v) l /\ k' = new_key k /\ v' = walk v.
Proof.
  revert acc; induction l as [|[k v] l IH]; intros acc H; simpl in *.
  - now left.
  - destruct (IH _ H) as [Hin | (k0 & v0 & Hin & Hk & Hv)].
    + destruct (In_setitem _ _ _ _ _ Hin) as [[-> ->] | Hacc].
      * right. exists k, v. auto.
      * now left.
    + right. exists k0, v0. auto.
Qed.

Lemma fold_keys_In (l acc : list (string * json)) (k' : string) :
  In k' (keys (fold_left walk_item l acc)) <->
  In k' (keys acc) \/ In k' (new_keys l).
Proof.
  revert acc; induction l as [|[k v] l IH]; intros acc; simpl.
  - tauto.
  - rewrite IH, In_keys_setitem. intuition congruence.
Qed.

(** Items whose new key is not [key] leave the entry of [key] alone. *)
Lemma fold_get_other (l acc : list (string * json)) (key : string) :
  (forall k, In k (keys l) -> new_key k <> key) ->
  get (fold_left walk_item l acc) key = get acc key.
Proof.
  revert acc; induction l as [|[k v] l IH]; intros acc H; simpl; [reflexivity|].
  rewrite IH.
  - apply get_setitem_ne. apply H. now left.
  - intros k0 Hk0. apply H. now right.
Qed.

(** The last item stored under a key is the one the result holds. *)
Lemma fold_get_last (before after acc : list (string * json))
                    (k : string) (v : json) :
  (forall k', In k' (keys after) -> new_key k' <> new_key k) ->
  get (fold_left walk_item (before ++ (k, v) :: after) acc) (new_key k)
  = Some (walk v).
Proof.
  intros H. rewrite fold_left_app. simpl.
  rewrite fold_get_other by exact H.
  apply get_setitem_eq.
Qed.

Lemma walk_items_NoDup (items : list (string * json)) :
  NoDup (keys (walk_items items)).
Proof. apply fold_NoDup. constructor. Qed.

Lemma walk_items_keys_incl (items : list (string * json)) :
  incl (keys (walk_items items)) (new_keys items).
Proof.
  intros k Hk. apply fold_keys_In in Hk. destruct Hk as [[] | Hk]. exact Hk.
Qed.

(** The loop never makes the mapping longer, and makes it shorter as soon as
    two items share a new key. *)
Lemma walk_items_length_le (items : list (string * json)) :
  length (walk_items items) <= length items.
Proof.
  rewrite <- (length_keys (walk_items items)).
  replace (length items) with (length (new_keys items))
    by apply List.length_map.
  apply NoDup_incl_length;
    [apply walk_items_NoDup | apply walk_items_keys_incl].
Qed.

Lemma walk_items_length_lt (items : list (string * json)) :
  ~ NoDup (new_keys items) ->
  length (walk_items items) < length items.
Proof.
  intros Hdup.
  destruct (Nat.lt_ge_cases (length (walk_items items)) (length items))
    as [Hlt | Hge]; [exact Hlt|].
  exfalso. apply Hdup.
  apply NoDup_incl_NoDup with (l := keys (walk_items items)).
  - apply walk_items_NoDup.
  - unfold new_keys. rewrite List.length_map, length_keys. exact Hge.
  - apply walk_items_keys_incl.
Qed.

End WalkItems.

Lemma distinct_NoDup (l : list string) : distinct l = true -> NoDup l.
Proof.
  induction l as [|x l IH]; simpl; intros H; [constructor|].
  apply andb_prop in H. destruct H as [Hx Hl].
  constructor; [|now apply IH].
  intros Hin. apply negb_true_iff in Hx.
  assert (Hex : existsb (String.eqb x) l = true).
  { apply existsb_exists. exists x. split; [exact Hin | apply String.eqb_refl]. }
  congruence.
Qed.

(** ** Renaming of keys *)

(** C1, evaluated on the code.  The claim is that a key under the old prefix
    has the prefix replaced at its start only, a later ["bloqade."] staying
    as it is.  [walk] calls [replace] without a count, so the key
    ["bloqade.x.bloqade.y"] is stored as
    ["bloqade.analog.x.bloqade.analog.y"], not as
    ["bloqade.analog.x.bloqade.y"]. *)
Theorem old_prefix_key_inner_occurrence_rewritten :
  let key := "bloqade.x.bloqade.y" in
  PyStr.startswith key old_prefix = true /\
  PyStr.startswith key new_prefix = false /\
  new_key key = "bloqade.analog.x.bloqade.analog.y" /\
  new_key key <> new_prefix +:+ PyStr.drop 8 key /\
  walk (JDict [(key, JScalar (SInt 1))])
  = JDict [("bloqade.analog.x.bloqade.analog.y", JScalar (SInt 1))].
Proof. repeat split; try reflexivity. discriminate. Qed.

(** The middle branch again: the key ["bloqade.bloqade.analog.x"] is under
    the old prefix and not under the new one; [replace] rewrites both of its
    occurrences of ["bloqade."], and the stored key holds the segment
    ["bloqade.analog.analog."], which the key itself did not. *)
Lemma old_prefix_key_gets_doubled_segment :
  let key := "bloqade.bloqade.analog.x" in
  PyStr.startswith key new_prefix = false /\
  PyStr.contains key "bloqade.analog.analog." = false /\
  new_key key = "bloqade.analog.bloqade.analog.analog.x" /\
  PyStr.contains (new_key key) "bloqade.analog.analog." = true /\
  walk (JDict [(key, JScalar (SInt 1))])
  = JDict [("bloqade.analog.bloqade.analog.analog.x", JScalar (SInt 1))].
Proof. repeat split; reflexivity. Qed.

(** X17.  An item whose key is under the new prefix is stored under that
    key as it is, with the transformed value, and it is what the result
    holds under that key unless a later item is stored under it too. *)
Lemma new_prefix_key_kept (before after : list (string * json))
                          (key : string) (value : json) :
  PyStr.startswith key new_prefix = true ->
  (forall k, In k (PyDict.keys after) -> new_key k <> key) ->
  new_key key = key /\
  (forall new_dict,
      walk_item new_dict (key, value) = PyDict.setitem new_dict key (walk value)) /\
  getitem (walk (JDict (before ++ (key, value) :: after))) key
  = Some (walk value).
Proof.
  intros Hnew Hlast.
  pose proof (new_key_new_prefix key Hnew) as E.
  split; [exact E|]. split.
  - intros new_dict. simpl. now rewrite E.
  - rewrite walk_JDict. simpl. rewrite <- E at 2.
    apply WalkItems.fold_get_last. now rewrite E.
Qed.

(** C4: a key that already starts with the new prefix is stored character
    for character as it is, with the transformed value.  It is a key of the
    result, and the result holds the transformed value under it unless a
    later item of the mapping is stored under the same key.  In particular
    such a key is never rewritten to contain the doubled segment
    ["bloqade.analog.analog."]: the stored key holds it, or starts with it,
    only where the key itself did. *)
Theorem new_prefix_key_unchanged (key : string) (value : json) :
  PyStr.startswith key new_prefix = true ->
  new_key key = key /\
  (forall new_dict,
      walk_item new_dict (key, value) = PyDict.setitem new_dict key (walk value)) /\
  (forall before after,
      exists out,
        walk (JDict (before ++ (key, value) :: after)) = JDict out /\
        In key (PyDict.keys out)) /\
  (forall before after,
      (forall k, In k (PyDict.keys after) -> new_key k <> key) ->
      getitem (walk (JDict (before ++ (key, value) :: after))) key
      = Some (walk value)) /\
  PyStr.contains (new_key key) "bloqade.analog.analog."
  = PyStr.contains key "bloqade.analog.analog." /\
  PyStr.startswith (new_key key) "bloqade.analog.analog."
  = PyStr.startswith key "bloqade.analog.analog.".
Proof.
  intros Hnew. pose proof (new_key_new_prefix key Hnew) as E.
  split; [exact E|]. split; [|split; [|split]].
  - intros new_dict. simpl. now rewrite E.
  - intros before after. exists (walk_items (before ++ (key, value) :: after)).
    split; [apply walk_JDict|].
    apply WalkItems.fold_keys_In. right.
    rewrite WalkItems.new_keys_app. apply in_or_app. right. left. exact E.
  - intros before after Hlast. rewrite walk_JDict. simpl. rewrite <- E at 2.
    apply WalkItems.fold_get_last. now rewrite E.
  - now rewrite E.
Qed.

Lemma new_prefix_key_unchanged_witness :
  let key := "bloqade.analog.y" in
  let value := JDict [("bloqade.z", JScalar (SInt 4))] in
  PyStr.startswith key new_prefix = true /\
  walk (JDict [(key, JScalar (SInt 4))]) = JDict [(key, JScalar (SInt 4))] /\
  new_key key = key /\
  (forall new_dict,
      walk_item new_dict (key, value) = PyDict.setitem new_dict key (walk value)) /\
  (forall before after,
      exists out,
        walk (JDict (before ++ (key, value) :: after)) = JDict out /\
        In key (PyDict.keys out)) /\
  (forall before after,
      (forall k, In k (PyDict.keys after) -> new_key k <> key) ->
      getitem (walk (JDict (before ++ (key, value) :: after))) key
      = Some (walk value)) /\
  PyStr.contains (new_key key) "bloqade.analog.analog."
  = PyStr.contains key "bloqade.analog.analog." /\
  PyStr.startswith (new_key key) "bloqade.analog.analog."
  = PyStr.startswith key "bloqade.analog.analog.".
Proof.
  intros key value.
  split; [reflexivity|]. split; [reflexivity|].
  apply (new_prefix_key_unchanged key value). reflexivity.
Defined.

(** C5: a key under neither prefix is kept as it is, and the result holds
    the transformed value under it. *)
Theorem other_key_kept (items : list (string * json))
                       (key : string) (value : json) :
  distinct (PyDict.keys items) = true ->
  In (key, value) items ->
  PyStr.startswith key old_prefix = false ->
  PyStr.startswith key new_prefix = false ->
  new_key key = key /\
  getitem (walk (JDict items)) key = Some (walk value).
Proof.
  intros Hdistinct Hin Hold Hnew.
  pose proof (new_key_other key Hold) as E.
  split; [exact E|].
  apply distinct_NoDup in Hdistinct.
  destruct (in_split _ _ Hin) as (before & after & ->).
  rewrite walk_JDict. simpl. rewrite <- E at 2.
  apply WalkItems.fold_get_last. rewrite E.
  intros k Hk Hcollide.
  unfold PyDict.keys in Hdistinct. rewrite map_app in Hdistinct. simpl in Hdistinct.
  apply NoDup_remove_2 in Hdistinct.
  destruct (new_key_cases k) as [Hsame | Hprefixed].
  - apply Hdistinct. apply in_or_app. right.
    replace key with k by congruence. exact Hk.
  - rewrite Hcollide in Hprefixed. congruence.
Qed.

Lemma other_key_kept_witness :
  let items := [("other.key", JScalar (SInt 2));
                ("bloqade.b", JList [JDict [("bloqade.c", JScalar (SInt 3))]])] in
  (distinct (PyDict.keys items) = true /\
   In ("other.key", JScalar (SInt 2)) items /\
   PyStr.startswith "other.key" old_prefix = false /\
   PyStr.startswith "other.key" new_prefix = false) /\
  new_key "other.key" = "other.key" /\
  getitem (walk (JDict items)) "other.key" = Some (walk (JScalar (SInt 2))).
Proof.
  intros items.
  assert (Hin : In ("other.key", JScalar (SInt 2)) items) by (simpl; auto).
  split; [repeat split; solve [reflexivity | exact Hin] |].
  apply (other_key_kept items "other.key" (JScalar (SInt 2)));
    solve [reflexivity | exact Hin].
Defined.

(** ** Scalars and sequences *)

Lemma leaves_walk_incl (data : json) : incl (leaves (walk data)) (leaves data).
Proof.
  induction data as [s | items IH | items IH] using json_nested_ind.
  - apply incl_refl.
  - simpl. intros s Hs.
    apply in_flat_map in Hs. destruct Hs as (w & Hw & Hs).
    apply in_map_iff in Hw. destruct Hw as (x & <- & Hx).
    apply in_flat_map. exists x. split; [exact Hx|].
    rewrite Forall_forall in IH. now apply (IH x Hx).
  - rewrite walk_JDict. simpl. intros s Hs.
    apply in_flat_map in Hs. destruct Hs as ([k' v'] & Hitem & Hs).
    apply WalkItems.fold_In in Hitem.
    destruct Hitem as [[] | (k & v & Hin & -> & ->)].
    apply in_flat_map. exists (k, v). split; [exact Hin|].
    rewrite Forall_forall in IH. now apply (IH (k, v) Hin).
Qed.

(** C6: a scalar is returned as it is; a string value is never rewritten,
    whatever it holds, and every scalar of the result is a scalar of the
    input. *)
Theorem scalar_returned_unchanged :
  (forall s : scalar, walk (JScalar s) = JScalar s) /\
  walk (JScalar (SStr "bloqade.not_a_key")) = JScalar (SStr "bloqade.not_a_key") /\
  walk (JDict [("bloqade.x", JScalar (SStr "bloqade.not_a_key"))])
  = JDict [("bloqade.analog.x", JScalar (SStr "bloqade.not_a_key"))] /\
  (forall data : json, incl (leaves (walk data)) (leaves data)).
Proof.
  split; [reflexivity|]. split; [reflexivity|]. split; [reflexivity|].
  exact leaves_walk_incl.
Qed.

(** C7: a sequence becomes a sequence of the same length whose i-th element
    is the transform of the i-th element of the input. *)
Theorem sequence_walked_elementwise (items : list json) :
  exists out : list json,
    walk (JList items) = JList out /\
    length out = length items /\
    forall i : nat, nth_error out i = option_map walk (nth_error items i).
Proof.
  exists (map walk items). split; [reflexivity|]. split.
  - apply List.length_map.
  - intros i. apply nth_error_map.
Qed.

(** ** Idempotence *)

(** A mapping that [walk] returned is rebuilt item for item by a second
    pass, once the values are known to be left alone by it. *)
Lemma walk_items_stable (items : list (string * json)) :
  Forall (fun item => walk (walk (snd item)) = walk (snd item)) items ->
  walk_items (walk_items items) = walk_items items.
Proof.
  intros IH. rewrite Forall_forall in IH.
  assert (Hfixed : forall item,
             In item (walk_items items) -> renamed_item item = item).
  { intros [k' v'] Hin. apply WalkItems.fold_In in Hin.
    destruct Hin as [[] | (k & v & Hin & -> & ->)].
    simpl. rewrite new_key_idempotent. f_equal. exact (IH (k, v) Hin). }
  unfold walk_items at 1. rewrite WalkItems.fold_fresh.
  - simpl. rewrite <- (map_id (walk_items items)) at 2.
    apply map_ext_in. exact Hfixed.
  - simpl. replace (new_keys (walk_items items))
      with (PyDict.keys (walk_items items)).
    + apply WalkItems.walk_items_NoDup.
    + apply map_ext_in. intros item Hin.
      rewrite <- (Hfixed item Hin) at 1. now destruct item.
Qed.

(** C2: a second pass changes nothing, and no key is renamed twice. *)
Theorem walk_idempotent :
  (forall data : json, walk (walk data) = walk data) /\
  (forall key : string, new_key (new_key key) = new_key key).
Proof.
  split; [|exact new_key_idempotent].
  induction data as [s | items IH | items IH] using json_nested_ind.
  - reflexivity.
  - simpl. f_equal. rewrite map_map. apply map_ext_in.
    rewrite Forall_forall in IH. exact IH.
  - rewrite !walk_JDict. f_equal. now apply walk_items_stable.
Qed.

(** ** Shape *)

Lemma shape_of_rename_keys (data : json) :
  shape_of (rename_keys data) = shape_of data.
Proof.
  induction data as [s | items IH | items IH] using json_nested_ind;
    simpl; [reflexivity | |]; f_equal; rewrite map_map; apply map_ext_in;
    rewrite Forall_forall in IH.
  - exact IH.
  - intros [k v] Hin. exact (IH (k, v) Hin).
Qed.

(** Without collisions [walk] is the plain renaming of the keys. *)
Lemma walk_collision_free (data : json) :
  collision_free data = true -> walk data = rename_keys data.
Proof.
  induction data as [s | items IH | items IH] using json_nested_ind;
    intros Hfree; simpl in Hfree.
  - reflexivity.
  - simpl. f_equal. apply map_ext_in. intros x Hx.
    rewrite Forall_forall in IH. apply (IH x Hx).
    rewrite forallb_forall in Hfree. now apply Hfree.
  - apply andb_prop in Hfree. destruct Hfree as [Hkeys Hvalues].
    rewrite walk_JDict. unfold walk_items.
    rewrite WalkItems.fold_fresh by (apply distinct_NoDup; exact Hkeys).
    simpl. f_equal. apply map_ext_in. intros [k v] Hin. simpl. f_equal.
    rewrite Forall_forall in IH. apply (IH (k, v) Hin).
    rewrite forallb_forall in Hvalues. exact (Hvalues (k, v) Hin).
Qed.

(** C3 as stated fails: two keys stored under one new key leave a mapping
    with one item where the input had two. *)
Lemma shape_lost_on_collision :
  let data := JDict [("bloqade.foo", JScalar (SInt 1));
                     ("bloqade.analog.foo", JScalar (SInt 2))] in
  distinct ["bloqade.foo"; "bloqade.analog.foo"] = true /\
  walk data = JDict [("bloqade.analog.foo", JScalar (SInt 2))] /\
  len (walk data) = Some 1 /\ len data = Some 2 /\
  shape_of (walk data) <> shape_of data.
Proof. repeat split; try reflexivity. discriminate. Qed.

(** C3, amended: when no mapping of the input holds two keys with the same
    new key, the result has the shape of the input (sequence lengths and
    order, scalars, number of items of every mapping) and differs from it in
    the renamed keys only. *)
Theorem walk_preserves_shape (data : json) :
  collision_free data = true ->
  shape_of (walk data) = shape_of data /\ walk data = rename_keys data.
Proof.
  intros Hfree. rewrite (walk_collision_free data Hfree).
  split; [apply shape_of_rename_keys | reflexivity].
Qed.

Lemma walk_preserves_shape_witness :
  let data :=
    JDict [("bloqade.a",
            JDict [("bloqade.b", JList [JDict [("bloqade.c", JScalar (SInt 3))];
                                        JScalar (SStr "bloqade.d")]);
                   ("bloqade.analog.e", JScalar SNone)]);
           ("other.key", JScalar (SBool true))] in
  collision_free data = true /\
  shape_of (walk data) = shape_of data /\ walk data = rename_keys data.
Proof.
  intros data. split; [reflexivity|].
  apply (walk_preserves_shape data). reflexivity.
Defined.

(** ** Collisions *)

(** C10: when two different keys of a mapping have the same new key, the
    result holds one item under that key, with the transformed value of the
    key that comes last in iteration order, and has fewer items than the
    input. *)
Theorem collision_last_wins
    (l1 l2 l3 : list (string * json)) (k1 k2 : string) (v1 v2 : json) :
  let items := l1 ++ (k1, v1) :: l2 ++ (k2, v2) :: l3 in
  k1 <> k2 ->
  new_key k1 = new_key k2 ->
  (forall k, In k (PyDict.keys l3) -> new_key k <> new_key k2) ->
  exists out : list (string * json),
    walk (JDict items) = JDict out /\
    count_occ String.string_dec (PyDict.keys out) (new_key k2) = 1 /\
    PyDict.get out (new_key k2) = Some (walk v2) /\
    length out < length items.
Proof.
  intros items _ Hsame Hlast. exists (walk_items items).
  split; [apply walk_JDict|].
  assert (Hget : PyDict.get (walk_items items) (new_key k2) = Some (walk v2)).
  { unfold items, walk_items.
    replace (l1 ++ (k1, v1) :: l2 ++ (k2, v2) :: l3)
      with ((l1 ++ (k1, v1) :: l2) ++ (k2, v2) :: l3)
      by (rewrite <- app_assoc; reflexivity).
    now apply WalkItems.fold_get_last. }
  split; [|split; [exact Hget|]].
  - apply NoDup_count_occ'; [apply WalkItems.walk_items_NoDup|].
    apply WalkItems.fold_keys_In. right. unfold items, new_keys.
    rewrite map_app. apply in_or_app. right. simpl. right.
    rewrite map_app. apply in_or_app. right. now left.
  - apply WalkItems.walk_items_length_lt. unfold items.
    rewrite WalkItems.new_keys_app. intros Hnodup.
    apply NoDup_remove_2 in Hnodup. apply Hnodup.
    apply in_or_app. right. rewrite WalkItems.new_keys_app.
    apply in_or_app. right. left. symmetry. exact Hsame.
Qed.

Lemma collision_last_wins_witness :
  let l1 := [("other", JScalar SNone)] in
  let l2 := [("x", JList [])] in
  let l3 := [("bloqade.bar", JScalar (SInt 3))] in
  let k1 := "bloqade.foo" in
  let k2 := "bloqade.analog.foo" in
  let v1 := JScalar (SInt 1) in
  let v2 := JDict [("bloqade.y", JScalar (SInt 2))] in
  let items := l1 ++ (k1, v1) :: l2 ++ (k2, v2) :: l3 in
  (k1 <> k2 /\ new_key k1 = new_key k2 /\
   forallb (fun k => negb (String.eqb (new_key k) (new_key k2)))
           (PyDict.keys l3) = true) /\
  exists out : list (string * json),
    walk (JDict items) = JDict out /\
    count_occ String.string_dec (PyDict.keys out) (new_key k2) = 1 /\
    PyDict.get out (new_key k2) = Some (walk v2) /\
    length out < length items.
Proof.
  intros l1 l2 l3 k1 k2 v1 v2 items.
  assert (H1 : k1 <> k2) by discriminate.
  assert (H2 : new_key k1 = new_key k2) by reflexivity.
  split; [split; [exact H1 | split; [exact H2 | reflexivity]] |].
  apply (collision_last_wins l1 l2 l3 k1 k2 v1 v2 H1 H2).
  intros k [<- | []]. discriminate.
Defined.

(** ** [walk] on a decoded document and the interpreter's stack *)

Lemma walk_py_PDict (listcomp frames : nat) (items : list (scalar * pyvalue)) :
  walk_py listcomp (S frames) (PDict items)
  = walk_py_loop listcomp frames items [].
Proof. reflexivity. Qed.

Lemma walk_py_PList (listcomp frames : nat) (items : list pyvalue) :
  walk_py listcomp (S frames) (PList items)
  = if Nat.ltb frames listcomp then Raise RecursionError
    else (let* ws := walk_py_each listcomp (frames - listcomp) items in
          Ok (PList ws)).
Proof. reflexivity. Qed.

(** Outside decoded documents the check on the key is real: a key that is
    not a [str] stops the loop. *)
Lemma walk_py_int_key :
  walk_py 1 1000
    (PDict [(SStr "bloqade.x", PScalar SNone); (SInt 1, PScalar SNone)])
  = Raise AttributeError.
Proof. reflexivity. Qed.

Lemma setitem_of_item (d : list (string * json)) (key : string) (value : json) :
  PyDict.setitem (map of_item d) key (of_json value)
  = map of_item (PyDict.setitem d key value).
Proof.
  induction d as [|[k v] d IH]; simpl; [reflexivity|].
  destruct (String.eqb k key); simpl; [reflexivity|].
  now rewrite IH.
Qed.

Lemma of_json_JDict (items : list (string * json)) :
  of_json (JDict items)
  = PDict (map (fun kv => (SStr (fst kv), snd kv)) (map of_item items)).
Proof.
  simpl. f_equal. rewrite map_map. apply map_ext. now intros [k v].
Qed.

Lemma leb_max (a b n : nat) :
  Nat.leb (Nat.max a b) n = Nat.leb a n && Nat.leb b n.
Proof.
  destruct (Nat.leb_spec a n), (Nat.leb_spec b n); simpl;
    first [apply Nat.leb_le | apply Nat.leb_gt]; lia.
Qed.

Lemma walk_py_loop_of_json (listcomp frames : nat)
                           (items acc : list (string * json)) :
  Forall (fun item => returns_or_overflows listcomp (snd item)) items ->
  walk_py_loop listcomp frames
    (map (fun item => match item with (key, value) => (SStr key, of_json value) end)
         items)
    (map of_item acc)
  = if Nat.leb
         (list_max
            (map (fun item => match item with
                              | (_, value) => frames_needed listcomp value
                              end)
                 (map (fun item => match item with
                                   | (key, value) => (SStr key, of_json value)
                                   end)
                      items)))
         frames
    then Ok (of_json (JDict (fold_left walk_item items acc)))
    else Raise RecursionError.
Proof.
  revert acc; induction items as [|[k v] items IH]; intros acc H.
  - cbn [map walk_py_loop list_max fold_right fold_left Nat.leb].
    now rewrite of_json_JDict.
  - inversion H as [|? ? Hv Hrest]; subst. simpl in Hv.
    cbn [map walk_py_loop list_max fold_right fold_left walk_item].
    rewrite leb_max, (Hv frames).
    destruct (Nat.leb (frames_needed listcomp (of_json v)) frames); simpl.
    + rewrite setitem_of_item. now apply IH.
    + reflexivity.
Qed.

Lemma walk_py_each_of_json (listcomp frames : nat) (items : list json) :
  Forall (returns_or_overflows listcomp) items ->
  walk_py_each listcomp frames (map of_json items)
  = if Nat.leb (list_max (map (frames_needed listcomp) (map of_json items))) frames
    then Ok (map of_json (map walk items))
    else Raise RecursionError.
Proof.
  induction items as [|x items IH]; intros H; [reflexivity|].
  inversion H as [|? ? Hx Hrest]; subst.
  cbn [map walk_py_each list_max fold_right].
  rewrite leb_max, (Hx frames), (IH Hrest).
  destruct (Nat.leb (frames_needed listcomp (of_json x)) frames); simpl;
    [|reflexivity].
  now destruct (Nat.leb _ frames).
Qed.

Lemma walk_py_of_json (listcomp : nat) (data : json) :
  returns_or_overflows listcomp data.
Proof.
  induction data as [s | items IH | items IH] using json_nested_ind;
    intros [|frames]; try reflexivity.
  - change (of_json (JList items)) with (PList (map of_json items)).
    rewrite walk_py_PList, (walk_py_each_of_json _ _ items IH).
    cbn [frames_needed].
    destruct (Nat.ltb_spec frames listcomp) as [Hlt | Hge].
    + symmetry. replace (Nat.leb _ (S frames)) with false; [reflexivity|].
      symmetry. apply Nat.leb_gt. lia.
    + set (deepest := list_max (map (frames_needed listcomp) (map of_json items))).
      replace (Nat.leb (S (listcomp + deepest)) (S frames))
        with (Nat.leb deepest (frames - listcomp)).
      * now destruct (Nat.leb deepest (frames - listcomp)).
      * destruct (Nat.leb_spec deepest (frames - listcomp));
          symmetry; [apply Nat.leb_le | apply Nat.leb_gt]; lia.
  - change (of_json (JDict items))
      with (PDict (map (fun item => match item with
                                    | (key, value) => (SStr key, of_json value)
                                    end) items)).
    rewrite walk_py_PDict, walk_JDict.
    exact (walk_py_loop_of_json listcomp frames items [] IH).
Qed.



(** ** The loop over the files *)

Module FilesFacts.
Import stdpp.base stdpp.strings stdpp.gmap.
Import Files.

Section Loop.
Variable json_load : string -> option json.
Variable json_dump : json -> string.

Lemma main_app (files1 files2 : list string) (fs fs1 : gmap string string) :
  main json_load json_dump files1 fs = (fs1, Ok tt) ->
  main json_load json_dump (files1 ++ files2) fs
  = main json_load json_dump files2 fs1.
Proof.
  revert fs; induction files1 as [|file files1 IH]; intros fs H; simpl in *.
  - now inversion H.
  - destruct (migrate_file json_load json_dump file fs) as [fs' [[]|e]].
    + now apply IH.
    + discriminate.
Qed.

(** A file that parses is overwritten with the dump of the transformed
    document. *)
Lemma migrate_file_ok (file content : string) (data : json)
                      (fs : gmap string string) :
  fs !! file = Some content ->
  json_load content = Some data ->
  migrate_file json_load json_dump file fs
  = (<[file := json_dump (walk data)]> fs, Ok tt).
Proof. intros Hfile Hload. unfold migrate_file. now rewrite Hfile, Hload. Qed.

(** C9: when [json.load] fails on a file, the run ends there with the
    parse error, and the files are as they were before that turn of the
    loop: the failing file is not written, the files after it are not
    visited. *)
Theorem parse_error_propagates
    (before after : list string) (file content : string)
    (fs fs1 : gmap string string) :
  main json_load json_dump before fs = (fs1, Ok tt) ->
  fs1 !! file = Some content ->
  json_load content = None ->
  migrate_file json_load json_dump file fs1 = (fs1, Raise JSONDecodeError) /\
  main json_load json_dump (before ++ file :: after) fs
  = (fs1, Raise JSONDecodeError) /\
  (main json_load json_dump (before ++ file :: after) fs).1 !! file
  = Some content.
Proof.
  intros Hbefore Hfile Hload.
  assert (Hbody : migrate_file json_load json_dump file fs1
                  = (fs1, Raise JSONDecodeError)).
  { unfold migrate_file. now rewrite Hfile, Hload. }
  assert (Hrun : main json_load json_dump (before ++ file :: after) fs
                 = (fs1, Raise JSONDecodeError)).
  { rewrite (main_app _ _ _ _ Hbefore). simpl. now rewrite Hbody. }
  split; [exact Hbody|]. split; [exact Hrun|].
  now rewrite Hrun.
Qed.
End Loop.

Lemma parse_error_propagates_witness :
  let fs : gmap string string :=
    <["a.json" := "{}"]> (<["b.json" := "{oops"]> (<["c.json" := "{}"]> ∅)) in
  (main load_empty_object dump_empty_object ["a.json"] fs = (fs, Ok tt) /\
   fs !! "b.json" = Some "{oops" /\
   load_empty_object "{oops" = None) /\
  migrate_file load_empty_object dump_empty_object "b.json" fs
  = (fs, Raise JSONDecodeError) /\
  main load_empty_object dump_empty_object ["a.json"; "b.json"; "c.json"] fs
  = (fs, Raise JSONDecodeError) /\
  (main load_empty_object dump_empty_object ["a.json"; "b.json"; "c.json"] fs).1
    !! "b.json" = Some "{oops".
Proof.
  intros fs.
  assert (H1 : main load_empty_object dump_empty_object ["a.json"] fs = (fs, Ok tt))
    by (vm_compute; reflexivity).
  assert (H2 : fs !! "b.json" = Some "{oops") by (vm_compute; reflexivity).
  assert (H3 : load_empty_object "{oops" = None) by reflexivity.
  split; [split; [exact H1 | split; [exact H2 | exact H3]] |].
  exact (parse_error_propagates load_empty_object dump_empty_object
           ["a.json"] ["c.json"] "b.json" "{oops" fs fs H1 H2 H3).
Defined.

End FilesFacts.

(** * Further properties of the script *)

(** ** Undoing [replace] *)

Module ReplaceBack.
Import PyStr PyStrFacts.

Lemma replace_nil (c : ascii) (old new : string) :
  replace EmptyString (String c old) new = EmptyString.
Proof. reflexivity. Qed.

Lemma drop_app (p s : string) : drop (String.length p) (p +:+ s) = s.
Proof.
  induction p as [|c p IH]; [reflexivity|].
  rewrite append_cons. exact IH.
Qed.

Lemma length_drop (n : nat) (s : string) :
  String.length (drop n s) <= String.length s.
Proof.
  revert s; induction n as [|n IH]; intros s; [reflexivity|].
  destruct s as [|c s]; [reflexivity|]. simpl. specialize (IH s). lia.
Qed.

Lemma contains_char_cons (c b : ascii) (p : string) :
  contains (String c p) (String b EmptyString) = false ->
  Ascii.eqb c b = false /\ contains p (String b EmptyString) = false.
Proof.
  intros H. cbn [contains startswith] in H.
  destruct (Ascii.eqb c b); [|split; [reflexivity|]].
  - destruct p; discriminate.
  - destruct p; exact H.
Qed.

Section Back.
(** [old] starts with a character that does not come back in it, and [new]
    is [old] with something appended. *)
Variables (b : ascii) (old' ext : string).
Hypothesis Hfirst : contains old' (String b EmptyString) = false.

Local Abbreviation old := (String b old').
Local Abbreviation new := (String b (old' +:+ ext)).

Lemma startswith_new_old (s : string) :
  startswith s new = true -> startswith s old = true.
Proof. apply (startswith_app_l s old ext). Qed.

(** A pattern without the first character of [old] matches the result of
    [replace] where it matched the string. *)
Lemma startswith_replace_other (p s : string) :
  contains p (String b EmptyString) = false ->
  startswith (replace s old new) p = startswith s p.
Proof.
  revert s; induction p as [|p0 p IH]; intros s Hp; [reflexivity|].
  destruct (contains_char_cons _ _ _ Hp) as [Hp0 Hrest].
  destruct s as [|c s]; [reflexivity|].
  destruct (startswith (String c s) old) eqn:E.
  - rewrite replace_match by (discriminate || exact E).
    rewrite append_cons. cbn [startswith] in *.
    destruct (Ascii.eqb_spec c b) as [->|]; [|discriminate].
    rewrite Ascii.eqb_sym, Hp0. reflexivity.
  - rewrite replace_copy by (discriminate || exact E).
    cbn [startswith]. destruct (Ascii.eqb c p0); [now apply IH | reflexivity].
Qed.

(** [replace] makes no occurrence of [old] start where none started. *)
Lemma startswith_replace_old (s : string) :
  startswith (replace s old new) old = startswith s old.
Proof.
  destruct s as [|c s]; [reflexivity|].
  destruct (startswith (String c s) old) eqn:E.
  - rewrite replace_match by (discriminate || exact E).
    apply startswith_new_old. apply (startswith_app new).
  - rewrite replace_copy by (discriminate || exact E).
    cbn [startswith] in *.
    now rewrite startswith_replace_other by exact Hfirst.
Qed.

(** Replacing [new] by [old] in the result gives the string back. *)
Lemma replace_back (s : string) : replace (replace s old new) new old = s.
Proof.
  remember (String.length s) as n eqn:Hn.
  revert s Hn; induction n as [n IH] using lt_wf_ind; intros s Hn.
  destruct s as [|c s]; [reflexivity|].
  destruct (startswith (String c s) old) eqn:E.
  - rewrite (replace_match (String c s) old new) by (discriminate || exact E).
    rewrite (replace_match (new +:+ _) new old)
      by (discriminate || apply startswith_app).
    rewrite drop_app.
    rewrite (IH (String.length (drop (String.length old) (String c s)))).
    + symmetry. now apply startswith_split.
    + subst n. cbn [String.length drop].
      pose proof (length_drop (String.length old') s). lia.
    + reflexivity.
  - rewrite (replace_copy c s old new) by (discriminate || exact E).
    rewrite (replace_copy c (replace s old new) new old).
    + f_equal. apply (IH (String.length s)); [subst n; simpl; lia | reflexivity].
    + discriminate.
    + destruct (startswith (String c (replace s old new)) new) eqn:E'; [|reflexivity].
      apply startswith_new_old in E'.
      rewrite <- (replace_copy c s old new) in E' by (discriminate || exact E).
      rewrite startswith_replace_old in E'. congruence.
Qed.
End Back.

End ReplaceBack.

(** ** More on the new key *)

Lemma replace_absent (s : string) (c : ascii) (old new : string) :
  PyStr.contains s (String c old) = false ->
  PyStr.replace s (String c old) new = s.
Proof.
  induction s as [|a s IH]; intros H; [reflexivity|].
  cbn [PyStr.contains] in H.
  destruct (PyStr.startswith (String a s) (String c old)) eqn:E; [discriminate|].
  rewrite PyStrFacts.replace_copy by (discriminate || exact E).
  f_equal. now apply IH.
Qed.

(** X1.  A key under the old prefix with no further ["bloqade."] behind the
    prefix gets the new prefix in place of the old one, and nothing else
    changes. *)
Theorem new_key_prefix_only (key : string) :
  PyStr.startswith key new_prefix = false ->
  PyStr.startswith key old_prefix = true ->
  PyStr.contains (PyStr.drop 8 key) old_prefix = false ->
  key = old_prefix +:+ PyStr.drop 8 key /\
  new_key key = new_prefix +:+ PyStr.drop 8 key.
Proof.
  intros Hnew Hold Hrest. split.
  - now apply (PyStrFacts.startswith_split key old_prefix).
  - rewrite new_key_old_prefix by assumption.
    now rewrite replace_absent.
Qed.

Lemma new_key_prefix_only_witness :
  let key := "bloqade.task.batch.RemoteBatch" in
  (PyStr.startswith key new_prefix = false /\
   PyStr.startswith key old_prefix = true /\
   PyStr.contains (PyStr.drop 8 key) old_prefix = false) /\
  key = old_prefix +:+ PyStr.drop 8 key /\
  new_key key = new_prefix +:+ PyStr.drop 8 key.
Proof.
  intros key. split; [repeat split; reflexivity|].
  apply (new_key_prefix_only key); reflexivity.
Defined.

Lemma new_key_replace_back (key : string) :
  PyStr.replace (PyStr.replace key old_prefix new_prefix) new_prefix old_prefix
  = key.
Proof. exact (ReplaceBack.replace_back "b" "loqade." "analog." eq_refl key). Qed.

(** X2.  The renaming of a key of the old namespace can be undone: replacing the
    new prefix by the old one in the new key gives the key back. *)
Theorem new_key_undone (key : string) :
  PyStr.startswith key new_prefix = false ->
  PyStr.startswith key old_prefix = true ->
  PyStr.replace (new_key key) new_prefix old_prefix = key.
Proof.
  intros Hnew Hold. unfold new_key. rewrite Hnew, Hold.
  apply new_key_replace_back.
Qed.

Lemma new_key_undone_witness :
  let key := "bloqade.x.bloqade.y" in
  (PyStr.startswith key new_prefix = false /\
   PyStr.startswith key old_prefix = true) /\
  PyStr.replace (new_key key) new_prefix old_prefix = key.
Proof.
  intros key. split; [split; reflexivity|].
  apply (new_key_undone key); reflexivity.
Defined.

(** Two keys that are not under the new prefix never get the same new
    key. *)
Lemma new_key_inj_not_new (k1 k2 : string) :
  PyStr.startswith k1 new_prefix = false ->
  PyStr.startswith k2 new_prefix = false ->
  new_key k1 = new_key k2 -> k1 = k2.
Proof.
  intros H1 H2 E.
  destruct (PyStr.startswith k1 old_prefix) eqn:O1;
    destruct (PyStr.startswith k2 old_prefix) eqn:O2.
  - unfold new_key in E. rewrite H1, O1, H2, O2 in E.
    rewrite <- (new_key_replace_back k1), <- (new_key_replace_back k2).
    now rewrite E.
  - rewrite (new_key_other k2 O2) in E.
    rewrite (new_key_old_prefix k1 H1 O1) in E.
    rewrite <- E, PyStrFacts.startswith_app in H2. discriminate.
  - rewrite (new_key_other k1 O1) in E.
    rewrite (new_key_old_prefix k2 H2 O2) in E.
    rewrite E, PyStrFacts.startswith_app in H1. discriminate.
  - now rewrite (new_key_other k1 O1), (new_key_other k2 O2) in E.
Qed.

(** X3.  Two different keys are stored under one new key only when one of them
    is under the new prefix already and the other is still under the old
    one. *)
Theorem collision_old_against_new (k1 k2 : string) :
  k1 <> k2 ->
  new_key k1 = new_key k2 ->
  (PyStr.startswith k1 new_prefix = true /\
   PyStr.startswith k2 new_prefix = false /\
   PyStr.startswith k2 old_prefix = true) \/
  (PyStr.startswith k2 new_prefix = true /\
   PyStr.startswith k1 new_prefix = false /\
   PyStr.startswith k1 old_prefix = true).
Proof.
  intros Hne E.
  destruct (PyStr.startswith k1 new_prefix) eqn:H1;
    destruct (PyStr.startswith k2 new_prefix) eqn:H2.
  - rewrite (new_key_new_prefix k1 H1), (new_key_new_prefix k2 H2) in E.
    contradiction.
  - left. repeat split.
    destruct (PyStr.startswith k2 old_prefix) eqn:O2; [reflexivity|].
    rewrite (new_key_new_prefix k1 H1), (new_key_other k2 O2) in E.
    contradiction.
  - right. repeat split.
    destruct (PyStr.startswith k1 old_prefix) eqn:O1; [reflexivity|].
    rewrite (new_key_new_prefix k2 H2), (new_key_other k1 O1) in E.
    contradiction.
  - exfalso. apply Hne. now apply new_key_inj_not_new.
Qed.

Lemma collision_old_against_new_witness :
  let k1 := "bloqade.analog.foo" in
  let k2 := "bloqade.foo" in
  (k1 <> k2 /\ new_key k1 = new_key k2) /\
  ((PyStr.startswith k1 new_prefix = true /\
    PyStr.startswith k2 new_prefix = false /\
    PyStr.startswith k2 old_prefix = true) \/
   (PyStr.startswith k2 new_prefix = true /\
    PyStr.startswith k1 new_prefix = false /\
    PyStr.startswith k1 old_prefix = true)).
Proof.
  intros k1 k2.
  assert (Hne : k1 <> k2) by discriminate.
  assert (E : new_key k1 = new_key k2) by reflexivity.
  split; [split; assumption|].
  exact (collision_old_against_new k1 k2 Hne E).
Defined.

Lemma key_migrated_new_key (key : string) : key_migrated (new_key key) = true.
Proof.
  unfold key_migrated.
  destruct (PyStr.startswith key new_prefix) eqn:Hn.
  - now rewrite (new_key_new_prefix key Hn), Hn.
  - destruct (PyStr.startswith key old_prefix) eqn:Ho.
    + rewrite (new_key_old_prefix key Hn Ho).
      now rewrite PyStrFacts.startswith_app.
    + rewrite (new_key_other key Ho), Ho. apply orb_true_r.
Qed.

Lemma key_migrated_fixed (key : string) :
  key_migrated key = true -> new_key key = key.
Proof.
  unfold key_migrated. intros H. apply orb_prop in H. destruct H as [H | H].
  - now apply new_key_new_prefix.
  - apply new_key_other. now apply negb_true_iff.
Qed.

(** The part of the mapping loop for keys under the new prefix, run on an
    example. *)
Lemma new_prefix_key_kept_witness :
  let before := [("bloqade.analog.ir", JList [])] in
  let after := [("bloqade.emulate", JScalar SNone)] in
  let key := "bloqade.analog.task" in
  let value := JDict [("bloqade.x", JScalar (SInt 1))] in
  (PyStr.startswith key new_prefix = true /\
   forallb (fun k => negb (String.eqb (new_key k) key)) (PyDict.keys after)
   = true) /\
  new_key key = key /\
  (forall new_dict,
      walk_item new_dict (key, value) = PyDict.setitem new_dict key (walk value)) /\
  getitem (walk (JDict (before ++ (key, value) :: after))) key
  = Some (walk value).
Proof.
  intros before after key value.
  split; [split; reflexivity|].
  apply (new_prefix_key_kept before after key value); [reflexivity|].
  intros k [<- | []]. discriminate.
Defined.

(** ** What [walk] returns *)

Lemma NoDup_distinct (l : list string) : NoDup l -> distinct l = true.
Proof.
  induction l as [|x l IH]; intros H; [reflexivity|].
  inversion H as [|? ? Hnotin Hl]; subst. simpl.
  rewrite (IH Hl), andb_true_r. apply negb_true_iff.
  destruct (existsb (String.eqb x) l) eqn:E; [|reflexivity].
  apply existsb_exists in E. destruct E as (y & Hy & Hxy).
  apply String.eqb_eq in Hxy. subst y. contradiction.
Qed.

Lemma NoDup_map_inj_on {A B : Type} (f : A -> B) (l : list A) :
  (forall x y, In x l -> In y l -> f x = f y -> x = y) ->
  NoDup l -> NoDup (map f l).
Proof.
  induction l as [|a l IH]; intros Hinj H; simpl; [constructor|].
  inversion H as [|? ? Hnotin Hl]; subst. constructor.
  - intros Hin. apply in_map_iff in Hin. destruct Hin as (y & Hy & Hin).
    apply Hnotin. rewrite (Hinj a y); auto; [now left | now right].
  - apply IH; [|exact Hl]. intros x y Hx Hy. apply Hinj; now right.
Qed.

Lemma unique_keys_walk (data : json) : unique_keys (walk data) = true.
Proof.
  induction data as [s | items IH | items IH] using json_nested_ind.
  - reflexivity.
  - simpl. apply forallb_forall. intros w Hw.
    apply in_map_iff in Hw. destruct Hw as (x & <- & Hx).
    rewrite Forall_forall in IH. exact (IH x Hx).
  - rewrite walk_JDict. simpl. apply andb_true_intro. split.
    + apply NoDup_distinct. apply WalkItems.walk_items_NoDup.
    + apply forallb_forall. intros [k' v'] Hin.
      apply WalkItems.fold_In in Hin.
      destruct Hin as [[] | (k & v & Hin & -> & ->)].
      rewrite Forall_forall in IH. exact (IH (k, v) Hin).
Qed.

Lemma migrated_walk (data : json) : migrated (walk data) = true.
Proof.
  induction data as [s | items IH | items IH] using json_nested_ind.
  - reflexivity.
  - simpl. apply forallb_forall. intros w Hw.
    apply in_map_iff in Hw. destruct Hw as (x & <- & Hx).
    rewrite Forall_forall in IH. exact (IH x Hx).
  - rewrite walk_JDict. simpl. apply forallb_forall. intros [k' v'] Hin.
    apply WalkItems.fold_In in Hin.
    destruct Hin as [[] | (k & v & Hin & -> & ->)].
    rewrite key_migrated_new_key. simpl.
    rewrite Forall_forall in IH. exact (IH (k, v) Hin).
Qed.

(** X4.  Whatever the input, the result of [walk] has pairwise different keys in
    every mapping and no key left in the old namespace, at any depth. *)
Theorem walk_result_migrated (data : json) :
  unique_keys (walk data) = true /\ migrated (walk data) = true.
Proof. split; [apply unique_keys_walk | apply migrated_walk]. Qed.

Lemma walk_fixed (data : json) :
  migrated data = true -> unique_keys data = true -> walk data = data.
Proof.
  induction data as [s | items IH | items IH] using json_nested_ind;
    intros Hm Hu; simpl in Hm, Hu.
  - reflexivity.
  - simpl. f_equal. rewrite <- (map_id items) at 2. apply map_ext_in.
    intros x Hx. rewrite Forall_forall in IH.
    rewrite forallb_forall in Hm, Hu. apply (IH x Hx); auto.
  - apply andb_prop in Hu. destruct Hu as [Hkeys Hu].
    rewrite forallb_forall in Hm, Hu. rewrite Forall_forall in IH.
    assert (Hitem : forall item, In item items -> renamed_item item = item).
    { intros [k v] Hin. specialize (Hm (k, v) Hin). simpl in Hm.
      apply andb_prop in Hm. destruct Hm as [Hk Hv]. simpl.
      rewrite (key_migrated_fixed k Hk). f_equal.
      apply (IH (k, v) Hin); [exact Hv | exact (Hu (k, v) Hin)]. }
    rewrite walk_JDict. f_equal. unfold walk_items.
    rewrite WalkItems.fold_fresh.
    + simpl. rewrite <- (map_id items) at 2. now apply map_ext_in.
    + simpl. replace (new_keys items) with (map fst items).
      * now apply distinct_NoDup.
      * apply map_ext_in. intros item Hin.
        rewrite <- (Hitem item Hin) at 1. now destruct item.
Qed.

(** X5.  The documents [walk] leaves as they are are exactly the migrated ones:
    pairwise different keys in every mapping, no key left in the old
    namespace. *)
Theorem walk_fixed_point_iff (data : json) :
  walk data = data <-> (migrated data = true /\ unique_keys data = true).
Proof.
  split.
  - intros E. rewrite <- E. split; [apply migrated_walk | apply unique_keys_walk].
  - intros [Hm Hu]. now apply walk_fixed.
Qed.

Lemma collision_free_unmigrated (data : json) :
  unique_keys data = true -> unmigrated data = true ->
  collision_free data = true.
Proof.
  induction data as [s | items IH | items IH] using json_nested_ind;
    intros Hu Hn; simpl in Hu, Hn.
  - reflexivity.
  - simpl. apply forallb_forall. intros x Hx.
    rewrite Forall_forall in IH. rewrite forallb_forall in Hu, Hn.
    apply (IH x Hx); auto.
  - apply andb_prop in Hu. destruct Hu as [Hkeys Hu].
    rewrite forallb_forall in Hu, Hn. rewrite Forall_forall in IH.
    simpl. apply andb_true_intro. split.
    + apply NoDup_distinct.
      apply NoDup_map_inj_on; [|apply (NoDup_map_inv fst), distinct_NoDup, Hkeys].
      intros [k1 v1] [k2 v2] H1 H2 E. simpl in E.
      pose proof (Hn _ H1) as N1. pose proof (Hn _ H2) as N2. simpl in N1, N2.
      apply andb_prop in N1, N2. destruct N1 as [N1 _], N2 as [N2 _].
      apply negb_true_iff in N1, N2.
      pose proof (new_key_inj_not_new k1 k2 N1 N2 E) as ->.
      f_equal. apply distinct_NoDup in Hkeys.
      assert (G1 := PyDictFacts.get_In items k2 v1 Hkeys H1).
      assert (G2 := PyDictFacts.get_In items k2 v2 Hkeys H2).
      congruence.
    + apply forallb_forall. intros [k v] Hin.
      specialize (Hn (k, v) Hin). simpl in Hn.
      apply andb_prop in Hn. destruct Hn as [_ Hv].
      exact (IH (k, v) Hin (Hu (k, v) Hin) Hv).
Qed.

(** X6.  A document that has not been migrated at all (pairwise different keys,
    none of them under the new prefix) loses nothing: no two keys collide,
    every key is renamed in place and the shape is kept. *)
Theorem walk_unmigrated_lossless (data : json) :
  unique_keys data = true ->
  unmigrated data = true ->
  collision_free data = true /\
  walk data = rename_keys data /\
  shape_of (walk data) = shape_of data.
Proof.
  intros Hu Hn.
  pose proof (collision_free_unmigrated data Hu Hn) as Hfree.
  split; [exact Hfree|].
  rewrite (walk_collision_free data Hfree).
  split; [reflexivity | apply shape_of_rename_keys].
Qed.

Lemma walk_unmigrated_lossless_witness :
  let data :=
    JDict [("bloqade.task.batch.RemoteBatch",
            JDict [("source", JScalar SNone);
                   ("tasks", JList [JDict [("bloqade.task.quera.QuEraTask",
                                            JScalar (SInt 7))];
                                    JScalar (SStr "bloqade.")]);
                   ("bloqade.x.bloqade.y", JScalar (SBool false))])] in
  (unique_keys data = true /\ unmigrated data = true) /\
  collision_free data = true /\
  walk data = rename_keys data /\
  shape_of (walk data) = shape_of data.
Proof.
  intros data. split; [split; reflexivity|].
  apply (walk_unmigrated_lossless data); reflexivity.
Defined.

(** ** Lookups in the result *)

Lemma fold_get_last_stored (l acc : list (string * json)) (key : string) :
  PyDict.get (fold_left walk_item l acc) key
  = match last_stored l key with
    | Some v => Some (walk v)
    | None => PyDict.get acc key
    end.
Proof.
  revert acc; induction l as [|[k v] l IH]; intros acc; simpl; [reflexivity|].
  rewrite IH. destruct (last_stored l key); [reflexivity|].
  destruct (String.eqb_spec (new_key k) key) as [<- | Hne].
  - apply PyDictFacts.get_setitem_eq.
  - now apply PyDictFacts.get_setitem_ne.
Qed.

(** X7.  Under any key the result of [walk] on a mapping holds the transformed
    value of the last item stored under that key, and nothing when no item
    is stored under it. *)
Theorem walk_getitem (items : list (string * json)) (key : string) :
  getitem (walk (JDict items)) key = option_map walk (last_stored items key).
Proof.
  rewrite walk_JDict. simpl. unfold walk_items.
  rewrite fold_get_last_stored. now destruct (last_stored items key).
Qed.

(** X8.  [walk] never makes a mapping longer, and keeps its length exactly when
    no two of its keys are stored under the same new key. *)
Theorem walk_length (items : list (string * json)) :
  exists out : list (string * json),
    walk (JDict items) = JDict out /\
    length out <= length items /\
    (length out = length items <-> NoDup (new_keys items)).
Proof.
  exists (walk_items items). split; [apply walk_JDict|].
  split; [apply WalkItems.walk_items_length_le|]. split.
  - intros E. destruct (ListDec.NoDup_dec String.string_dec (new_keys items))
      as [H | H]; [exact H|].
    apply WalkItems.walk_items_length_lt in H. lia.
  - intros H. unfold walk_items. rewrite WalkItems.fold_fresh by exact H.
    apply List.length_map.
Qed.

(** ** When [walk] raises *)

Module WalkPy.

Lemma str_keys_wrap (new_dict : list (string * pyvalue)) :
  forallb (fun kv => str_keys (snd kv)) new_dict = true ->
  str_keys (PDict (map (fun kv => (SStr (fst kv), snd kv)) new_dict)) = true.
Proof.
  intros H. simpl. rewrite forallb_forall in *. intros item Hin.
  apply in_map_iff in Hin. destruct Hin as ([k v] & <- & Hin).
  exact (H (k, v) Hin).
Qed.

Lemma str_keys_setitem (new_dict : list (string * pyvalue))
                       (key : string) (w : pyvalue) :
  forallb (fun kv => str_keys (snd kv)) new_dict = true ->
  str_keys w = true ->
  forallb (fun kv => str_keys (snd kv)) (PyDict.setitem new_dict key w) = true.
Proof.
  intros H Hw. rewrite forallb_forall in *. intros [k v] Hin.
  destruct (PyDictFacts.In_setitem _ _ _ _ _ Hin) as [[-> ->] | Hold];
    [exact Hw | exact (H (k, v) Hold)].
Qed.

Lemma list_max_cons (a : nat) (l : list nat) :
  list_max (a :: l) = Nat.max a (list_max l).
Proof. reflexivity. Qed.

Section Stack.
Variable listcomp : nat.

(** With the frames it needs, a call ends as the keys of the value tell. *)
Abbreviation settled := (fun data =>
  forall frames, frames_needed listcomp data <= frames ->
                 outcome listcomp frames data).

Lemma each_outcome (frames : nat) (items : list pyvalue) :
  Forall settled items ->
  list_max (map (frames_needed listcomp) items) <= frames ->
  match walk_py_each listcomp frames items with
  | Ok ws => forallb str_keys items = true /\ forallb str_keys ws = true
  | Raise e => forallb str_keys items = false /\ e = AttributeError
  end.
Proof.
  induction items as [|x items IH]; intros H Hframes; [now split|].
  inversion H as [|? ? Hx Hrest]; subst.
  cbn [map] in Hframes. rewrite list_max_cons in Hframes.
  specialize (Hx frames ltac:(lia)). specialize (IH Hrest ltac:(lia)).
  unfold outcome in Hx. simpl.
  destruct (walk_py listcomp frames x) as [w | e]; simpl.
  - destruct Hx as [-> Hw].
    destruct (walk_py_each listcomp frames items) as [ws | e]; simpl.
    + destruct IH as [-> Hws]. now rewrite Hw.
    + exact IH.
  - destruct Hx as [-> ->]. now split.
Qed.

Lemma loop_outcome (frames : nat) (items : list (scalar * pyvalue))
                   (new_dict : list (string * pyvalue)) :
  Forall (fun item => settled (snd item)) items ->
  list_max (map (fun item => match item with
                             | (_, value) => frames_needed listcomp value
                             end) items) <= frames ->
  forallb (fun kv => str_keys (snd kv)) new_dict = true ->
  match walk_py_loop listcomp frames items new_dict with
  | Ok r => str_keys (PDict items) = true /\ str_keys r = true
  | Raise e => str_keys (PDict items) = false /\ e = AttributeError
  end.
Proof.
  revert new_dict; induction items as [|[key v] items IH];
    intros new_dict H Hframes Hd.
  - split; [reflexivity | now apply str_keys_wrap].
  - inversion H as [|? ? Hv Hrest]; subst.
    cbn [map] in Hframes. rewrite list_max_cons in Hframes.
    specialize (Hv frames ltac:(simpl; lia)).
    unfold outcome in Hv. simpl in Hv.
    destruct key as [| b | n | bits | k]; try (now split).
    cbn [walk_py_loop]. destruct (walk_py listcomp frames v) as [w | e]; simpl.
    + destruct Hv as [Hv Hw]. rewrite Hv.
      apply (IH _ Hrest); [lia | now apply str_keys_setitem].
    + destruct Hv as [-> ->]. now split.
Qed.

Lemma walk_py_outcome (data : pyvalue) : settled data.
Proof.
  induction data as [s | items IH | items IH] using pyvalue_nested_ind;
    intros [|frames] Hframes; cbn [frames_needed] in Hframes; try lia.
  - now split.
  - unfold outcome. rewrite walk_py_PList.
    destruct (Nat.ltb_spec frames listcomp) as [Hlt | Hge]; [lia|].
    pose proof (each_outcome (frames - listcomp) items IH ltac:(lia)) as H.
    destruct (walk_py_each listcomp (frames - listcomp) items) as [ws | e];
      simpl; exact H.
  - unfold outcome. rewrite walk_py_PDict.
    apply loop_outcome; [exact IH | lia | reflexivity].
Qed.

End Stack.


End WalkPy.

(** The second pass, as a fact to build on. *)
Lemma walk_walk (data : json) : walk (walk data) = walk data.
Proof.
  apply walk_fixed; [apply migrated_walk | apply unique_keys_walk].
Qed.

(** ** More on the loop over the files *)

Module FilesMore.
Import stdpp.base stdpp.strings stdpp.gmap.
Import Files.

Section Loop.
Variable json_load : string -> option json.
Variable json_dump : json -> string.

Abbreviation migrate_file' := (migrate_file json_load json_dump).
Abbreviation main' := (main json_load json_dump).
Abbreviation all_parse := (FilesState.all_parse json_load).
Abbreviation all_stable := (FilesState.all_stable json_load json_dump).

Lemma migrate_file_dom (file : string) (fs : gmap string string) :
  dom (migrate_file' file fs).1 = dom fs.
Proof.
  unfold migrate_file. destruct (fs !! file) as [content|] eqn:Hfile; [|done].
  destruct (json_load content); [|done]. simpl.
  apply dom_insert_lookup_L. by rewrite Hfile.
Qed.

Lemma migrate_file_other (file path : string) (fs : gmap string string) :
  path <> file -> (migrate_file' file fs).1 !! path = fs !! path.
Proof.
  intros Hne. unfold migrate_file. destruct (fs !! file) as [content|]; [|done].
  destruct (json_load content); [|done]. simpl.
  by apply lookup_insert_ne.
Qed.

Lemma main_cons (file : string) (rest : list string) (fs : gmap string string) :
  main' (file :: rest) fs
  = match (migrate_file' file fs).2 with
    | Ok _ => main' rest (migrate_file' file fs).1
    | Raise e => ((migrate_file' file fs).1, Raise e)
    end.
Proof. simpl. by destruct (migrate_file json_load json_dump file fs) as [fs' [[]|e]]. Qed.

(** X10.  The script creates no file and deletes none, also when it stops on an
    error: the directory holds the same paths after the run. *)
Theorem main_keeps_paths (files : list string) (fs : gmap string string) :
  dom (main json_load json_dump files fs).1 = dom fs.
Proof.
  revert fs; induction files as [|file rest IH]; intros fs; [done|].
  rewrite main_cons. destruct (migrate_file' file fs).2 eqn:E.
  - rewrite IH. apply migrate_file_dom.
  - apply migrate_file_dom.
Qed.

Lemma main_other (files : list string) (path : string) (fs : gmap string string) :
  ~ In path files -> (main' files fs).1 !! path = fs !! path.
Proof.
  revert fs; induction files as [|file rest IH]; intros fs Hnotin; [done|].
  assert (Hne : path <> file) by (intros ->; apply Hnotin; by left).
  assert (Hrest : ~ In path rest) by (intros Hin; apply Hnotin; by right).
  rewrite main_cons. destruct (migrate_file' file fs).2 eqn:E.
  - rewrite (IH _ Hrest). by apply migrate_file_other.
  - by apply migrate_file_other.
Qed.


Lemma main_all_parse (files : list string) (fs : gmap string string) :
  List.NoDup files ->
  all_parse files fs ->
  (main' files fs).2 = Ok tt /\
  forall file content data,
    In file files -> fs !! file = Some content -> json_load content = Some data ->
    (main' files fs).1 !! file = Some (json_dump (walk data)).
Proof.
  revert fs; induction files as [|file rest IH]; intros fs Hnodup Hall.
  - split; [done | intros ? ? ? []].
  - inversion Hnodup as [|? ? Hnotin Hrest]; subst.
    destruct (Hall file (or_introl eq_refl)) as (content & data & Hfile & Hload).
    rewrite main_cons.
    rewrite (FilesFacts.migrate_file_ok json_load json_dump file content data fs Hfile Hload).
    simpl.
    assert (Hall' : all_parse rest (<[file := json_dump (walk data)]> fs)).
    { intros f Hf. destruct (Hall f (or_intror Hf)) as (c & d & Hc & Hd).
      exists c, d. split; [|done].
      rewrite lookup_insert_ne; [done|]. intros ->. contradiction. }
    destruct (IH _ Hrest Hall') as [Hok Hcontent]. split; [exact Hok|].
    intros f c d [<- | Hf] Hc Hd.
    + rewrite main_other by exact Hnotin.
      rewrite lookup_insert_eq. congruence.
    + apply (Hcontent f c d Hf); [|done].
      rewrite lookup_insert_ne; [done|]. intros ->. contradiction.
Qed.

Lemma migrate_file_ok_inv (file : string) (fs : gmap string string) :
  (migrate_file' file fs).2 = Ok tt ->
  exists content data, fs !! file = Some content /\ json_load content = Some data.
Proof.
  unfold migrate_file. destruct (fs !! file) as [content|]; [|discriminate].
  destruct (json_load content) as [data|] eqn:Hload; [|discriminate].
  intros _. by exists content, data.
Qed.

(** A run that ends without an error has found every listed file and parsed
    it. *)
Lemma main_ok_all_parse (files : list string) (fs : gmap string string) :
  List.NoDup files ->
  (main' files fs).2 = Ok tt ->
  all_parse files fs.
Proof.
  revert fs; induction files as [|file rest IH]; intros fs Hnodup Hok.
  - intros ? [].
  - inversion Hnodup as [|? ? Hnotin Hrest]; subst.
    rewrite main_cons in Hok.
    destruct (migrate_file' file fs).2 as [[]|e] eqn:E; [|discriminate].
    intros f [<- | Hf].
    + by apply migrate_file_ok_inv.
    + destruct (IH _ Hrest Hok f Hf) as (c & d & Hc & Hd).
      exists c, d. split; [|done].
      rewrite <- Hc. symmetry. apply migrate_file_other.
      intros ->. contradiction.
Qed.

(** X12.  When the listed paths are pairwise different and the run ends
    without an error, every listed file was there and was parsed, and it now
    holds the dump of its transformed document. *)
Theorem main_migrates_every_file (files : list string) (fs : gmap string string) :
  List.NoDup files ->
  (main json_load json_dump files fs).2 = Ok tt ->
  forall file, In file files ->
    exists content data,
      fs !! file = Some content /\
      json_load content = Some data /\
      (main json_load json_dump files fs).1 !! file
      = Some (json_dump (walk data)).
Proof.
  intros Hnodup Hok file Hin.
  pose proof (main_ok_all_parse files fs Hnodup Hok) as Hall.
  destruct (Hall file Hin) as (content & data & Hfile & Hload).
  exists content, data. split; [done|]. split; [done|].
  destruct (main_all_parse files fs Hnodup Hall) as [_ Hcontent].
  by apply (Hcontent file content data).
Qed.

Lemma main_stable (files : list string) (fs : gmap string string) :
  all_stable files fs -> main' files fs = (fs, Ok tt).
Proof.
  induction files as [|file rest IH]; intros Hall; [done|].
  destruct (Hall file (or_introl eq_refl))
    as (content & data & Hfile & Hload & Hdump).
  rewrite main_cons.
  rewrite (FilesFacts.migrate_file_ok json_load json_dump file content data fs Hfile Hload).
  simpl. rewrite Hdump, (insert_id fs file content Hfile).
  apply IH. intros f Hf. exact (Hall f (or_intror Hf)).
Qed.

(** X13.  After a run that ended without an error, a second run that ends
    without an error leaves every file as the first run left it, provided
    the listed paths are pairwise different and [json.load] reads back what
    [json.dump] wrote for the transformed documents. *)
Theorem main_twice (files : list string) (fs : gmap string string) :
  List.NoDup files ->
  (main json_load json_dump files fs).2 = Ok tt ->
  (forall file content data,
      In file files -> fs !! file = Some content -> json_load content = Some data ->
      json_load (json_dump (walk data)) = Some (walk data)) ->
  (main json_load json_dump files (main json_load json_dump files fs).1).2
  = Ok tt ->
  (main json_load json_dump files (main json_load json_dump files fs).1).1
  = (main json_load json_dump files fs).1.
Proof.
  intros Hnodup Hok Hback _.
  pose proof (main_ok_all_parse files fs Hnodup Hok) as Hall.
  destruct (main_all_parse files fs Hnodup Hall) as [_ Hcontent].
  rewrite main_stable; [done|]. intros file Hin.
  destruct (Hall file Hin) as (content & data & Hfile & Hload).
  exists (json_dump (walk data)), (walk data).
  split; [exact (Hcontent file content data Hin Hfile Hload)|].
  split; [exact (Hback file content data Hin Hfile Hload)|].
  f_equal. apply walk_walk.
Qed.
End Loop.


Lemma main_migrates_every_file_witness :
  let fs : gmap string string :=
    <["a.json" := "old"]> (<["c.json" := "new"]> (<["notes.txt" := "hello"]> ∅)) in
  let files := ["a.json"; "c.json"] in
  (List.NoDup files /\
   (main FilesState.load_sample FilesState.dump_sample files fs).2 = Ok tt) /\
  forall file, In file files ->
    exists content data,
      fs !! file = Some content /\
      FilesState.load_sample content = Some data /\
      (main FilesState.load_sample FilesState.dump_sample files fs).1 !! file
      = Some (FilesState.dump_sample (walk data)).
Proof.
  intros fs files.
  assert (H1 : List.NoDup files).
  { repeat constructor; simpl; intuition discriminate. }
  assert (H2 : (main FilesState.load_sample FilesState.dump_sample files fs).2
               = Ok tt) by (vm_compute; reflexivity).
  split; [split; [exact H1 | exact H2] |].
  exact (main_migrates_every_file FilesState.load_sample FilesState.dump_sample
           files fs H1 H2).
Defined.

Lemma load_dump_sample (content : string) (data : json) :
  FilesState.load_sample content = Some data ->
  FilesState.load_sample (FilesState.dump_sample (walk data)) = Some (walk data).
Proof.
  unfold FilesState.load_sample at 1.
  destruct (String.eqb content "old").
  - intros E. injection E as <-. reflexivity.
  - destruct (String.eqb content "new"); [|discriminate].
    intros E. injection E as <-. reflexivity.
Defined.

Lemma main_twice_witness :
  let fs : gmap string string :=
    <["a.json" := "old"]> (<["c.json" := "new"]> (<["notes.txt" := "hello"]> ∅)) in
  let files := ["a.json"; "c.json"] in
  let run := main FilesState.load_sample FilesState.dump_sample files in
  (List.NoDup files /\
   (run fs).2 = Ok tt /\
   (forall file content data,
      In file files -> fs !! file = Some content ->
      FilesState.load_sample content = Some data ->
      FilesState.load_sample (FilesState.dump_sample (walk data))
      = Some (walk data)) /\
   (run (run fs).1).2 = Ok tt) /\
  (run fs).1 !! "a.json" = Some "new" /\
  (run (run fs).1).1 = (run fs).1.
Proof.
  intros fs files run.
  assert (H1 : List.NoDup files).
  { repeat constructor; simpl; intuition discriminate. }
  assert (H2 : (run fs).2 = Ok tt) by (vm_compute; reflexivity).
  assert (H3 : forall file content data,
             In file files -> fs !! file = Some content ->
             FilesState.load_sample content = Some data ->
             FilesState.load_sample (FilesState.dump_sample (walk data))
             = Some (walk data)).
  { intros file content data _ _. apply load_dump_sample. }
  assert (H4 : (run (run fs).1).2 = Ok tt) by (vm_compute; reflexivity).
  split; [split; [exact H1 | split; [exact H2 | split; [exact H3 | exact H4]]] |].
  split; [vm_compute; reflexivity|].
  exact (main_twice FilesState.load_sample FilesState.dump_sample
           files fs H1 H2 H3 H4).
Defined.

End FilesMore.

(** ** [get_z2_probabilities] *)

Module Z2Facts.
Import Z2.

Section Probabilities.
Context {float : Type}.
Variable truediv : Z -> Z -> float.

Abbreviation probability_of := (fun count p => z2_probability truediv count = inr p).

Lemma z2_loop_inr (counts : list (list (string * Z))) (acc ps : list float) :
  z2_loop truediv counts acc = inr ps <->
  exists ps', ps = acc ++ ps' /\ Forall2 probability_of counts ps'.
Proof.
  revert acc; induction counts as [|count rest IH]; intros acc; simpl.
  - split.
    + intros E. injection E as <-. exists []. split; [now rewrite app_nil_r | constructor].
    + intros (ps' & -> & H). inversion H. now rewrite app_nil_r.
  - destruct (z2_probability truediv count) as [e | p] eqn:E.
    + split; [discriminate|]. intros (ps' & _ & H). inversion H; congruence.
    + rewrite IH. split.
      * intros (ps' & -> & H). exists (p :: ps'). split.
        -- now rewrite <- app_assoc.
        -- now constructor.
      * intros (ps' & -> & H). inversion H as [|? p' ? ps'' Hp Hrest]; subst.
        exists ps''. split; [|exact Hrest].
        rewrite <- app_assoc. simpl. congruence.
Qed.

Lemma total_sum (count : list (string * Z)) :
  total count = fold_right Z.add 0%Z (map snd count).
Proof.
  unfold total. apply fold_symmetric; intros; lia.
Qed.

(** One count gives a probability exactly when it has the bitstring and its
    values do not sum to zero, and the probability is then the quotient. *)
Lemma z2_probability_inr (count : list (string * Z)) (p : float) :
  z2_probability truediv count = inr p <->
  exists n,
    PyDict.get count "01010101010" = Some n /\
    fold_right Z.add 0%Z (map snd count) <> 0%Z /\
    p = truediv n (fold_right Z.add 0%Z (map snd count)).
Proof.
  unfold z2_probability. rewrite <- total_sum.
  destruct (PyDict.get count "01010101010") as [n|].
  - destruct (Z.eqb_spec (total count) 0) as [E | E].
    + split; [discriminate|]. intros (m & _ & Hne & _). contradiction.
    + split.
      * intros H. injection H as <-. now exists n.
      * intros (m & Hm & _ & ->). now injection Hm as <-.
  - split; [discriminate|]. intros (m & Hm & _). discriminate.
Qed.

(** X14.  The function returns a list exactly when every count has the
    bitstring ["01010101010"] and values that do not sum to zero; the list
    then holds, in the order of the counts, the quotient of the entry of the
    bitstring by the sum of the values of each count. *)
Theorem get_z2_probabilities_returns
    (counts : list (list (string * Z))) (ps : list float) :
  get_z2_probabilities truediv counts = inr ps <->
  Forall2
    (fun count p =>
       exists n,
         PyDict.get count "01010101010" = Some n /\
         fold_right Z.add 0%Z (map snd count) <> 0%Z /\
         p = truediv n (fold_right Z.add 0%Z (map snd count)))
    counts ps.
Proof.
  unfold get_z2_probabilities. rewrite z2_loop_inr. split.
  - intros (ps' & -> & H). simpl.
    induction H; constructor; [now apply z2_probability_inr | assumption].
  - intros H. exists ps. split; [reflexivity|].
    induction H; constructor; [now apply z2_probability_inr | assumption].
Qed.

Lemma z2_loop_first_error (before after : list (list (string * Z)))
                          (count : list (string * Z)) (acc : list float) (e : error) :
  Forall (fun c => exists p, z2_probability truediv c = inr p) before ->
  z2_probability truediv count = inl e ->
  z2_loop truediv (before ++ count :: after) acc = inl e.
Proof.
  revert acc; induction before as [|c before IH]; intros acc Hbefore Hcount; simpl.
  - now rewrite Hcount.
  - inversion Hbefore as [|? ? [p Hp] Hrest]; subst. rewrite Hp. now apply IH.
Qed.

(** X15.  The first count that lacks the bitstring ["01010101010"] ends the call
    with [KeyError], whatever its other entries are; nothing is returned for
    the counts before it. *)
Theorem get_z2_probabilities_key_error
    (before after : list (list (string * Z))) (count : list (string * Z)) :
  Forall (fun c => exists p, z2_probability truediv c = inr p) before ->
  PyDict.get count "01010101010" = None ->
  get_z2_probabilities truediv (before ++ count :: after)
  = inl (KeyError "01010101010").
Proof.
  intros Hbefore Hmissing. apply z2_loop_first_error; [exact Hbefore|].
  unfold z2_probability. now rewrite Hmissing.
Qed.

(** X16.  A count that has the bitstring but sums to zero ends the call with
    [ZeroDivisionError]. *)
Theorem get_z2_probabilities_zero_division
    (before after : list (list (string * Z))) (count : list (string * Z)) (n : Z) :
  Forall (fun c => exists p, z2_probability truediv c = inr p) before ->
  PyDict.get count "01010101010" = Some n ->
  total count = 0%Z ->
  get_z2_probabilities truediv (before ++ count :: after) = inl ZeroDivisionError.
Proof.
  intros Hbefore Hkey Htotal. apply z2_loop_first_error; [exact Hbefore|].
  unfold z2_probability. now rewrite Hkey, Htotal.
Qed.
End Probabilities.

Lemma get_z2_probabilities_key_error_witness :
  let truediv := fun n t : Z => (n, t) in
  let before := [[("01010101010", 3%Z); ("11111111111", 1%Z)]] in
  let count := [("00000000000", 5%Z)] in
  let after := [[("01010101010", 2%Z)]] in
  (Forall (fun c => exists p, z2_probability truediv c = inr p) before /\
   PyDict.get count "01010101010" = None) /\
  get_z2_probabilities truediv (before ++ count :: after)
  = inl (KeyError "01010101010").
Proof.
  intros truediv before count after.
  assert (H1 : Forall (fun c => exists p, z2_probability truediv c = inr p) before).
  { repeat constructor. exists (3%Z, 4%Z). reflexivity. }
  assert (H2 : PyDict.get count "01010101010" = None) by reflexivity.
  split; [split; assumption|].
  exact (get_z2_probabilities_key_error truediv before after count H1 H2).
Defined.

Lemma get_z2_probabilities_zero_division_witness :
  let truediv := fun n t : Z => (n, t) in
  let before := @nil (list (string * Z)) in
  let count := [("01010101010", 0%Z)] in
  let after := [[("01010101010", 2%Z)]] in
  (Forall (fun c => exists p, z2_probability truediv c = inr p) before /\
   PyDict.get count "01010101010" = Some 0%Z /\
   total count = 0%Z) /\
  get_z2_probabilities truediv (before ++ count :: after) = inl ZeroDivisionError.
Proof.
  intros truediv before count after.
  assert (H1 : Forall (fun c => exists p, z2_probability truediv c = inr p) before)
    by constructor.
  assert (H2 : PyDict.get count "01010101010" = Some 0%Z) by reflexivity.
  assert (H3 : total count = 0%Z) by reflexivity.
  split; [repeat split; assumption|].
  exact (get_z2_probabilities_zero_division truediv before after count 0%Z H1 H2 H3).
Defined.

End Z2Facts.
